(** * skim: the playback and rendering engine of [main.go]

    A shallow embedding of the engine of the terminal speed reader
    (ORP calculator, word formatter, pacing clock, the [Update] state
    machine and the word line of [View]) together with the properties
    the specification states about them.

    Conventions.
    - A Go [string] is a sequence of bytes: [list ascii].  Codepoint
      operations ([utf8.RuneCountInString], [[]rune(s)], [string(runes)])
      go through the UTF-8 decoder and encoder of the Go library, which
      are modelled below ([Utf8]).
    - A Go [int] is a 64-bit signed integer, modelled as [Z]; the
      unguarded additions and subtractions of the code wrap around
      through [wrap64].
    - A runtime panic (index out of range, integer division by zero,
      [strings.Repeat] on a negative or an oversized count) is the
      result [None].
    - The file picker and the progress bar are outside: their
      operations are the fields of [External], taken as functions. *)

From Stdlib Require Import ZArith Ascii String List Bool Lia.
Import ListNotations.
Local Open Scope Z_scope.

(* ================================================================== *)
(** * Go integers *)

Module GoInt.

Definition MaxInt : Z := 9223372036854775807.
Definition MinInt : Z := -9223372036854775808.

(** Two's complement wrap-around of a 64-bit signed integer. *)
Definition wrap64 (z : Z) : Z := (z + 2 ^ 63) mod 2 ^ 64 - 2 ^ 63.

Definition add64 (x y : Z) : Z := wrap64 (x + y).
Definition sub64 (x y : Z) : Z := wrap64 (x - y).
Definition mul64 (x y : Z) : Z := wrap64 (x * y).

(** [len(s)] of a slice or string. *)
Definition len {A} (l : list A) : Z := Z.of_nat (length l).

End GoInt.
Import GoInt.

(* ================================================================== *)
(** * Go strings and the [unicode/utf8] package *)

Definition gostring := list ascii.
Definition rune := Z.

(** A string literal of the source, as bytes. *)
Definition lit (s : string) : gostring := list_ascii_of_string s.

Module Utf8.

Definition byteZ (a : ascii) : Z := Z.of_N (N_of_ascii a).
(** [byte(z)]: conversion to [uint8] keeps the low eight bits. *)
Definition byte_of (z : Z) : ascii := ascii_of_N (Z.to_N (z mod 256)).

Definition RuneError : rune := 65533.   (* U+FFFD *)
Definition MaxRune : rune := 1114111.   (* U+10FFFF *)
Definition surrogateMin : rune := 55296.
Definition surrogateMax : rune := 57343.

Definition maskx : Z := 63.  (* 0b00111111 *)
Definition mask2 : Z := 31.  (* 0b00011111 *)
Definition mask3 : Z := 15.  (* 0b00001111 *)
Definition mask4 : Z := 7.   (* 0b00000111 *)
Definition locb : Z := 128.  (* 0b10000000 *)
Definition hicb : Z := 191.  (* 0b10111111 *)

(** The information the table [first] of the Go library holds for a
    leading byte: one-byte ASCII, illegal, or the size of the
    sequence with the accepted range of the second byte. *)
Inductive firstInfo : Type :=
| ASCII
| Invalid
| Lead (sz : nat) (lo hi : Z).

Definition first (b : Z) : firstInfo :=
  if b <? 128 then ASCII                       (* 0x00-0x7F *)
  else if b <? 194 then Invalid                (* 0x80-0xC1 *)
  else if b <? 224 then Lead 2 locb hicb       (* 0xC2-0xDF *)
  else if b =? 224 then Lead 3 160 hicb        (* 0xE0 *)
  else if b <? 237 then Lead 3 locb hicb       (* 0xE1-0xEC *)
  else if b =? 237 then Lead 3 locb 159        (* 0xED *)
  else if b <? 240 then Lead 3 locb hicb       (* 0xEE-0xEF *)
  else if b =? 240 then Lead 4 144 hicb        (* 0xF0 *)
  else if b <? 244 then Lead 4 locb hicb       (* 0xF1-0xF3 *)
  else if b =? 244 then Lead 4 locb 143        (* 0xF4 *)
  else Invalid.                                (* 0xF5-0xFF *)

(** [utf8.DecodeRuneInString]: the first rune of [s] and its width in
    bytes; an invalid or short encoding yields [(RuneError, 1)]. *)
Definition DecodeRuneInString (s : gostring) : rune * nat :=
  match s with
  | [] => (RuneError, 0%nat)
  | s0 :: t0 =>
    match first (byteZ s0) with
    | ASCII => (byteZ s0, 1%nat)
    | Invalid => (RuneError, 1%nat)
    | Lead sz lo hi =>
      if (length s <? sz)%nat then (RuneError, 1%nat) else
      match t0 with
      | [] => (RuneError, 1%nat)
      | s1 :: t1 =>
        if (byteZ s1 <? lo) || (hi <? byteZ s1) then (RuneError, 1%nat) else
        if (sz <=? 2)%nat then
          (Z.lor (Z.shiftl (Z.land (byteZ s0) mask2) 6)
                 (Z.land (byteZ s1) maskx), 2%nat)
        else
        match t1 with
        | [] => (RuneError, 1%nat)
        | s2 :: t2 =>
          if (byteZ s2 <? locb) || (hicb <? byteZ s2) then (RuneError, 1%nat) else
          if (sz <=? 3)%nat then
            (Z.lor (Z.lor (Z.shiftl (Z.land (byteZ s0) mask3) 12)
                          (Z.shiftl (Z.land (byteZ s1) maskx) 6))
                   (Z.land (byteZ s2) maskx), 3%nat)
          else
          match t2 with
          | [] => (RuneError, 1%nat)
          | s3 :: _ =>
            if (byteZ s3 <? locb) || (hicb <? byteZ s3) then (RuneError, 1%nat) else
            (Z.lor (Z.lor (Z.lor (Z.shiftl (Z.land (byteZ s0) mask4) 18)
                                 (Z.shiftl (Z.land (byteZ s1) maskx) 12))
                          (Z.shiftl (Z.land (byteZ s2) maskx) 6))
                   (Z.land (byteZ s3) maskx), 4%nat)
          end
        end
      end
    end
  end.

(** [[]rune(s)]: decode rune after rune until the string is used up.
    Every step consumes at least one byte, so [length s] steps are
    enough. *)
Fixpoint runes_loop (fuel : nat) (s : gostring) : list rune :=
  match fuel with
  | O => []
  | S fuel' =>
    match s with
    | [] => []
    | _ :: _ =>
      let (r, n) := DecodeRuneInString s in
      r :: runes_loop fuel' (skipn n s)
    end
  end.

Definition runes (s : gostring) : list rune := runes_loop (length s) s.

(** [utf8.RuneCountInString]. *)
Definition RuneCountInString (s : gostring) : Z := len (runes s).

(** [utf8.AppendRune]: the UTF-8 encoding of one rune; a rune out of
    range or a surrogate half is encoded as [RuneError]. *)
Definition encode3 (r : rune) : gostring :=
  [ byte_of (Z.lor 224 (Z.shiftr r 12 mod 256));
    byte_of (Z.lor 128 (Z.land (Z.shiftr r 6 mod 256) maskx));
    byte_of (Z.lor 128 (Z.land (r mod 256) maskx)) ].

Definition EncodeRune (r : rune) : gostring :=
  if (0 <=? r) && (r <=? 127) then [byte_of r]
  else if (0 <=? r) && (r <=? 2047) then
    [ byte_of (Z.lor 192 (Z.shiftr r 6 mod 256));
      byte_of (Z.lor 128 (Z.land (r mod 256) maskx)) ]
  else if (r <? 0) || (MaxRune <? r)
          || ((surrogateMin <=? r) && (r <=? surrogateMax)) then
    encode3 RuneError
  else if r <=? 65535 then encode3 r
  else
    [ byte_of (Z.lor 240 (Z.shiftr r 18 mod 256));
      byte_of (Z.lor 128 (Z.land (Z.shiftr r 12 mod 256) maskx));
      byte_of (Z.lor 128 (Z.land (Z.shiftr r 6 mod 256) maskx));
      byte_of (Z.lor 128 (Z.land (r mod 256) maskx)) ].

(** The Unicode scalar values: the runes that have an encoding of
    their own. *)
Definition valid_rune (r : rune) : Prop :=
  0 <= r < surrogateMin \/ surrogateMax < r <= MaxRune.

(** [string(rs)] for a slice of runes. *)
Definition string_of_runes (rs : list rune) : gostring :=
  flat_map EncodeRune rs.

End Utf8.
Import Utf8.

(** ** [unicode.IsSpace] and [strings.Fields] *)

Module Strings.

(** [unicode.IsSpace]: the Latin-1 spaces and the other codepoints
    with the White_Space property. *)
Definition IsSpace (r : rune) : bool :=
  ((9 <=? r) && (r <=? 13))        (* \t \n \v \f \r *)
  || (r =? 32) || (r =? 133) || (r =? 160)
  || (r =? 5760)                   (* U+1680 *)
  || ((8192 <=? r) && (r <=? 8202))  (* U+2000-U+200A *)
  || (r =? 8232) || (r =? 8233)    (* U+2028, U+2029 *)
  || (r =? 8239) || (r =? 8287)    (* U+202F, U+205F *)
  || (r =? 12288).                 (* U+3000 *)

(** A field that ends is appended to the result, if it has begun. *)
Definition flush (cur : gostring) (acc : list gostring) : list gostring :=
  match cur with [] => acc | _ :: _ => acc ++ [cur] end.

(** [strings.Fields]: the maximal pieces of [s] free of white space.
    [cur] is the piece being read, [acc] the pieces read so far. *)
Fixpoint fields_loop (fuel : nat) (s cur : gostring) (acc : list gostring)
  : list gostring :=
  match fuel with
  | O => flush cur acc
  | S fuel' =>
    match s with
    | [] => flush cur acc
    | _ :: _ =>
      let (r, n) := DecodeRuneInString s in
      if IsSpace r
      then fields_loop fuel' (skipn n s) [] (flush cur acc)
      else fields_loop fuel' (skipn n s) (cur ++ firstn n s) acc
    end
  end.

Definition Fields (s : gostring) : list gostring :=
  fields_loop (length s) s [] [].

End Strings.

(* ================================================================== *)
(** * The messages, commands and external collaborators of the program *)

(** Option as the panic monad. *)
Notation "x <- e ;; k" :=
  (match e with Some x => k | None => None end)
  (at level 61, e at next level, right associativity).

(** [xs[i]]: an index out of range panics. *)
Definition index {A} (xs : list A) (i : Z) : option A :=
  if (0 <=? i) && (i <? len xs) then nth_error xs (Z.to_nat i) else None.

(** The largest allocation the runtime admits on 64-bit Linux, in
    bytes: [make] panics above it (below it, the memory of the machine
    decides). *)
Definition maxAlloc : Z := 2 ^ 48.

(** [strings.Repeat(s, count)]: a negative count panics, and so does
    a result of more than [maxAlloc] bytes (the overflow test of
    [Repeat], then the allocation). *)
Definition Repeat (s : gostring) (count : Z) : option gostring :=
  if count <? 0 then None
  else if len s * count >? maxAlloc then None
  else Some (concat (repeat s (Z.to_nat count))).

(** [a / b] on 64-bit integers: truncates toward zero, panics on a
    zero divisor. *)
Definition quot64 (a b : Z) : option Z :=
  if b =? 0 then None else Some (wrap64 (Z.quot a b)).

(** [time.Duration] counts nanoseconds. *)
Definition Millisecond : Z := 1000000.
Definition Second : Z := 1000 * Millisecond.
Definition Minute : Z := 60 * Second.

(** [tea.Msg], as far as [Update] tells messages apart.  A key message
    carries the name [msg.String()] of the key. *)
Inductive Msg : Type :=
| WindowSizeMsg (Width Height : Z)
| KeyMsg (name : string)
| tickMsg
| FrameMsg                (* progress.FrameMsg *)
| OtherMsg (tag : nat).

(** [tea.Cmd]: [nil], the one-shot timer of [tea.Tick] with its
    interval, [tea.Quit], or a command of one of the widgets. *)
Inductive Cmd : Type :=
| CmdNil
| Tick (interval : Z)
| Quit
| WidgetCmd (tag : nat).

(** A key binding, as the list of key names it answers to (all the
    bindings of the program are enabled); [key.Matches]. *)
Definition Binding := list string.

Definition Matches (name : string) (b : Binding) : bool :=
  existsb (String.eqb name) b.

Record keyMap : Type := {
  PlayPause : Binding;
  Prev : Binding;
  Next : Binding;
  Faster : Binding;
  Slower : Binding;
  JumpBack : Binding;
  JumpFwd : Binding;
  Restart : Binding;
  OpenFile : Binding;
  KQuit : Binding  (* field [Quit] *)
}.

Module Globals.
Local Open Scope string_scope.

(** [var keys]. *)
Definition keys : keyMap := {|
  PlayPause := [" "];
  Prev := ["left"; "h"];
  Next := ["right"; "l"];
  Faster := ["up"; "k"; "+"; "="];
  Slower := ["down"; "j"; "-"; "_"];
  JumpBack := ["["];
  JumpFwd := ["]"];
  Restart := ["r"];
  OpenFile := ["o"];
  KQuit := ["q"; "esc"; "ctrl+c"]
|}.
End Globals.

(** The widgets and the operating system, which the engine only calls:
    the file picker and the progress bar of the [bubbles] library and
    [os.ReadFile].  The operations of the widgets are functions here:
    what they return is left open, a panic inside a widget is not
    modelled, and the theorems below speak of the code of the engine
    itself. *)
Class External : Type := {
  Picker : Type;                                   (* filepicker.Model *)
  ProgressBar : Type;                              (* progress.Model *)
  picker_New : Picker;     (* filepicker.New() with directory and types set *)
  picker_SetHeight : Picker -> Z -> Picker;
  picker_Init : Picker -> Cmd;
  picker_Update : Picker -> Msg -> Picker * Cmd;
  picker_DidSelectFile : Picker -> Msg -> option gostring;
  progress_New : ProgressBar;         (* progress.New(...) of initialModel *)
  progress_Update : ProgressBar -> Msg -> ProgressBar * Cmd;
  ReadFile : gostring -> option gostring           (* os.ReadFile; None: err != nil *)
}.

(* ================================================================== *)
(** * The pure functions of [main.go] *)

(** [calculateORP]. *)
Definition calculateORP (word : gostring) : Z :=
  let length := RuneCountInString word in
  if length <=? 1 then 0
  else if length <=? 5 then 1
  else if length <=? 9 then 2
  else if length <=? 13 then 3
  else 4.

Definition is_empty_string (s : gostring) : bool :=
  match s with [] => true | _ :: _ => false end.

(** [tokenize]. *)
Definition tokenize (text : gostring) : list gostring :=
  let fields := Strings.Fields text in
  fold_left (fun words f => if negb (is_empty_string f) then words ++ [f] else words)
            fields [].

(** [isBinaryFile]. *)
Definition isBinaryFile (content : gostring) : bool :=
  let checkSize := Z.min 8192 (len content) in
  existsb (fun b => byteZ b =? 0) (firstn (Z.to_nat checkSize) content).

(** [truncateWord]. *)
Definition truncateWord (word : gostring) : gostring :=
  if RuneCountInString word <=? 32 then word
  else
    let runes := runes word in
    string_of_runes (firstn 31 runes) ++ lit "...".

(** [tickCmd]: the command that sends one [tickMsg] after [interval];
    a rate of zero panics in the division. *)
Definition tickInterval (wpm : Z) : option Z := quot64 Minute wpm.

Definition tickCmd (wpm : Z) : option Cmd :=
  interval <- tickInterval wpm ;; Some (Tick interval).

(* ================================================================== *)
(** * The model and [Update] *)

Section Engine.
Context `{Ext : External}.

Record model : Type := {
  words : list gostring;
  currentIdx : Z;
  wpm : Z;
  paused : bool;
  width : Z;
  height : Z;
  quit : bool;
  focusCol : Z;
  help_Width : Z;           (* help.Model, of which only Width is set *)
  keys : keyMap;
  progress : ProgressBar;
  filepicker : Picker;
  showPicker : bool;
  selectedFile : gostring;
  fileError : gostring
}.

Definition set_words v m := {| words := v; currentIdx := currentIdx m; wpm := wpm m; paused := paused m; width := width m; height := height m; quit := quit m; focusCol := focusCol m; help_Width := help_Width m; keys := keys m; progress := progress m; filepicker := filepicker m; showPicker := showPicker m; selectedFile := selectedFile m; fileError := fileError m |}.
Definition set_currentIdx v m := {| words := words m; currentIdx := v; wpm := wpm m; paused := paused m; width := width m; height := height m; quit := quit m; focusCol := focusCol m; help_Width := help_Width m; keys := keys m; progress := progress m; filepicker := filepicker m; showPicker := showPicker m; selectedFile := selectedFile m; fileError := fileError m |}.
Definition set_wpm v m := {| words := words m; currentIdx := currentIdx m; wpm := v; paused := paused m; width := width m; height := height m; quit := quit m; focusCol := focusCol m; help_Width := help_Width m; keys := keys m; progress := progress m; filepicker := filepicker m; showPicker := showPicker m; selectedFile := selectedFile m; fileError := fileError m |}.
Definition set_paused v m := {| words := words m; currentIdx := currentIdx m; wpm := wpm m; paused := v; width := width m; height := height m; quit := quit m; focusCol := focusCol m; help_Width := help_Width m; keys := keys m; progress := progress m; filepicker := filepicker m; showPicker := showPicker m; selectedFile := selectedFile m; fileError := fileError m |}.
Definition set_size w h m := {| words := words m; currentIdx := currentIdx m; wpm := wpm m; paused := paused m; width := w; height := h; quit := quit m; focusCol := focusCol m; help_Width := help_Width m; keys := keys m; progress := progress m; filepicker := filepicker m; showPicker := showPicker m; selectedFile := selectedFile m; fileError := fileError m |}.
Definition set_quit v m := {| words := words m; currentIdx := currentIdx m; wpm := wpm m; paused := paused m; width := width m; height := height m; quit := v; focusCol := focusCol m; help_Width := help_Width m; keys := keys m; progress := progress m; filepicker := filepicker m; showPicker := showPicker m; selectedFile := selectedFile m; fileError := fileError m |}.
Definition set_focusCol v m := {| words := words m; currentIdx := currentIdx m; wpm := wpm m; paused := paused m; width := width m; height := height m; quit := quit m; focusCol := v; help_Width := help_Width m; keys := keys m; progress := progress m; filepicker := filepicker m; showPicker := showPicker m; selectedFile := selectedFile m; fileError := fileError m |}.
Definition set_help_Width v m := {| words := words m; currentIdx := currentIdx m; wpm := wpm m; paused := paused m; width := width m; height := height m; quit := quit m; focusCol := focusCol m; help_Width := v; keys := keys m; progress := progress m; filepicker := filepicker m; showPicker := showPicker m; selectedFile := selectedFile m; fileError := fileError m |}.
Definition set_progress v m := {| words := words m; currentIdx := currentIdx m; wpm := wpm m; paused := paused m; width := width m; height := height m; quit := quit m; focusCol := focusCol m; help_Width := help_Width m; keys := keys m; progress := v; filepicker := filepicker m; showPicker := showPicker m; selectedFile := selectedFile m; fileError := fileError m |}.
Definition set_filepicker v m := {| words := words m; currentIdx := currentIdx m; wpm := wpm m; paused := paused m; width := width m; height := height m; quit := quit m; focusCol := focusCol m; help_Width := help_Width m; keys := keys m; progress := progress m; filepicker := v; showPicker := showPicker m; selectedFile := selectedFile m; fileError := fileError m |}.
Definition set_showPicker v m := {| words := words m; currentIdx := currentIdx m; wpm := wpm m; paused := paused m; width := width m; height := height m; quit := quit m; focusCol := focusCol m; help_Width := help_Width m; keys := keys m; progress := progress m; filepicker := filepicker m; showPicker := v; selectedFile := selectedFile m; fileError := fileError m |}.
Definition set_selectedFile v m := {| words := words m; currentIdx := currentIdx m; wpm := wpm m; paused := paused m; width := width m; height := height m; quit := quit m; focusCol := focusCol m; help_Width := help_Width m; keys := keys m; progress := progress m; filepicker := filepicker m; showPicker := showPicker m; selectedFile := v; fileError := fileError m |}.
Definition set_fileError v m := {| words := words m; currentIdx := currentIdx m; wpm := wpm m; paused := paused m; width := width m; height := height m; quit := quit m; focusCol := focusCol m; help_Width := help_Width m; keys := keys m; progress := progress m; filepicker := filepicker m; showPicker := showPicker m; selectedFile := selectedFile m; fileError := v |}.

(** [initialModel]. *)
Definition initialModel (words : list gostring) (wpm : Z) : model := {|
  words := words;
  currentIdx := 0;
  wpm := wpm;
  paused := true;
  width := 0;
  height := 0;
  quit := false;
  focusCol := 40;
  help_Width := 0;
  keys := Globals.keys;
  progress := progress_New;
  filepicker := picker_New;
  showPicker := len words =? 0;
  selectedFile := [];
  fileError := []
|}.

(** The clamp [main] applies to the [-wpm] flag before it builds the
    initial model. *)
Definition clampFlag (wpm : Z) : Z :=
  if wpm <? 50 then 50 else if wpm >? 1000 then 1000 else wpm.

(** The first statement of [Update]: a resize is recorded whatever
    the mode. *)
Definition resize (m : model) (msg : Msg) : model :=
  match msg with
  | WindowSizeMsg Width Height =>
    let m := set_size Width Height m in
    let m := set_focusCol (Z.quot Width 2) m in
    let m := set_help_Width Width m in
    set_filepicker (picker_SetHeight (filepicker m) (Z.min 20 (sub64 Height 15))) m
  | _ => m
  end.

(** The keys that close the picker: [case "esc", "q"]. *)
Definition isCancel (msg : Msg) : bool :=
  match msg with
  | KeyMsg name => (name =? "esc")%string || (name =? "q")%string
  | _ => false
  end.

(** The branch [if m.showPicker] of [Update]. *)
Definition updatePicker (m : model) (msg : Msg) : option (model * Cmd) :=
  if isCancel msg then Some (set_showPicker false m, CmdNil)
  else
    let (fp, cmd) := picker_Update (filepicker m) msg in
    let m := set_filepicker fp m in
    match picker_DidSelectFile (filepicker m) msg with
    | Some path =>
      let m :=
        match ReadFile path with
        | None => set_fileError (lit "Error reading file") m
        | Some content =>
          if isBinaryFile content then
            set_fileError (lit "Cannot open binary file") m
          else
            let words := tokenize content in
            if len words >? 0 then
              let m := set_words words m in
              let m := set_currentIdx 0 m in
              let m := set_paused true m in
              let m := set_selectedFile path m in
              set_fileError [] m
            else
              set_fileError (lit "No words found in file") m
        end in
      Some (set_showPicker false m, CmdNil)
    | None => Some (m, cmd)
    end.

(** The [case tea.KeyMsg] of the reader. *)
Definition updateKey (m : model) (name : string) : option (model * Cmd) :=
  if Matches name (KQuit (keys m)) then
    Some (set_quit true m, Quit)
  else if Matches name (OpenFile (keys m)) then
    let m := set_showPicker true m in
    let m := set_paused true m in
    let m := set_filepicker picker_New m in
    let m := if height m >? 0
             then set_filepicker (picker_SetHeight (filepicker m) (sub64 (height m) 15)) m
             else m in
    Some (m, picker_Init (filepicker m))
  else if Matches name (PlayPause (keys m)) then
    let m := set_paused (negb (paused m)) m in
    if negb (paused m) then
      c <- tickCmd (wpm m) ;; Some (m, c)
    else Some (m, CmdNil)
  else if Matches name (Prev (keys m)) then
    let m := if currentIdx m >? 0 then set_currentIdx (currentIdx m - 1) m else m in
    Some (m, CmdNil)
  else if Matches name (Next (keys m)) then
    let m := if currentIdx m <? len (words m) - 1
             then set_currentIdx (currentIdx m + 1) m else m in
    Some (m, CmdNil)
  else if Matches name (Faster (keys m)) then
    let m := set_wpm (add64 (wpm m) 25) m in
    let m := if wpm m >? 1000 then set_wpm 1000 m else m in
    Some (m, CmdNil)
  else if Matches name (Slower (keys m)) then
    let m := set_wpm (sub64 (wpm m) 25) m in
    let m := if wpm m <? 50 then set_wpm 50 m else m in
    Some (m, CmdNil)
  else if Matches name (JumpBack (keys m)) then
    let m := set_currentIdx (sub64 (currentIdx m) 10) m in
    let m := if currentIdx m <? 0 then set_currentIdx 0 m else m in
    Some (m, CmdNil)
  else if Matches name (JumpFwd (keys m)) then
    let m := set_currentIdx (add64 (currentIdx m) 10) m in
    let m := if currentIdx m >=? len (words m)
             then set_currentIdx (len (words m) - 1) m else m in
    Some (m, CmdNil)
  else if Matches name (Restart (keys m)) then
    let m := set_currentIdx 0 m in
    let m := set_paused true m in
    Some (m, CmdNil)
  else Some (m, CmdNil).

(** The [case tickMsg]. *)
Definition updateTick (m : model) : option (model * Cmd) :=
  if negb (paused m) && (currentIdx m <? len (words m) - 1) then
    let m := set_currentIdx (currentIdx m + 1) m in
    c <- tickCmd (wpm m) ;; Some (m, c)
  else
    let m := if currentIdx m >=? len (words m) - 1 then set_paused true m else m in
    if negb (paused m) then
      c <- tickCmd (wpm m) ;; Some (m, c)
    else Some (m, CmdNil).

(** [model.Update]. *)
Definition Update (m : model) (msg : Msg) : option (model * Cmd) :=
  let m := resize m msg in
  if showPicker m then updatePicker m msg
  else
    match msg with
    | KeyMsg name => updateKey m name
    | tickMsg => updateTick m
    | FrameMsg =>
      let (progressModel, cmd) := progress_Update (progress m) msg in
      Some (set_progress progressModel m, cmd)
    | _ => Some (m, CmdNil)
    end.

End Engine.

(* ================================================================== *)
(** * [View] *)

(** The [lipgloss] styles of [View].  Rendering a string with a style
    wraps it in escape sequences that occupy no column; a rendered
    piece is kept as the pair of its style and its text. *)
Inductive Style : Type :=
| noStyle
| normalStyle
| highlightStyle
| dimStyle
| contextStyle
| statusStyle.

Definition segment : Type := Style * gostring.

(** What [View] returns: a plain message, the screen of the file
    picker (drawn by the picker itself), or the reader screen, of
    which the focus marker line, the word line and the figures of the
    status line are kept. *)
Inductive Screen : Type :=
| Message (text : gostring)
| PickerScreen
| Reader (focusLine wordLine : list segment) (wordsRemaining timeRemaining : Z).

(** The glyphs of a line, one per codepoint, each with the style it is
    drawn in.  The columns of a line are counted in glyphs, as the
    code counts them ([utf8.RuneCountInString]); they are the cells
    of the terminal where every glyph takes one cell ([single_cell]
    below), not on wide or combining characters. *)
Definition glyphs (line : list segment) : list (Style * rune) :=
  flat_map (fun sg => map (pair (fst sg)) (runes (snd sg))) line.

Definition displayWidth (line : list segment) : Z := len (glyphs line).

(** The loop that gathers the words after the current one: it runs
    while words remain and the builder holds fewer than [limit]
    bytes. *)
Fixpoint afterLoop (rest : list gostring) (limit : Z) (afterBuilder : gostring)
  : gostring :=
  match rest with
  | [] => afterBuilder
  | w :: rest' =>
    if len afterBuilder <? limit
    then afterLoop rest' limit (afterBuilder ++ lit " " ++ w)
    else afterBuilder
  end.

(** The pieces of the current word: one per rune, the one at [orpIdx]
    highlighted. *)
Fixpoint wordPartsFrom (i : Z) (orpIdx : Z) (rs : list rune) : list segment :=
  match rs with
  | [] => []
  | r :: rs' =>
    (if i =? orpIdx then (highlightStyle, string_of_runes [r])
     else (normalStyle, string_of_runes [r]))
    :: wordPartsFrom (i + 1) orpIdx rs'
  end.

Section Rendering.
Context `{Ext : External}.

Definition halfWidth : Z := 30.

(** Lines 492-554 of [View], split in the three parts of the line. *)
Definition currentWord (m : model) : option gostring :=
  index (words m) (currentIdx m).

Definition beforeSectionWidth (word : gostring) : Z :=
  let truncatedWord := truncateWord word in
  let orpIdx := calculateORP truncatedWord in
  let charsBeforeORP := orpIdx in
  Z.max 0 (halfWidth - charsBeforeORP).

Definition afterSectionWidth (word : gostring) : Z :=
  let truncatedWord := truncateWord word in
  let orpIdx := calculateORP truncatedWord in
  let wordLen := RuneCountInString word in
  let charsAfterORP := wordLen - orpIdx in
  Z.max 0 (halfWidth - charsAfterORP).

Definition contextBefore (m : model) (word : gostring) : option gostring :=
  let beforeSectionWidth := beforeSectionWidth word in
  let beforeStr :=
    concat (map (fun w => w ++ lit " ") (firstn (Z.to_nat (currentIdx m)) (words m))) in
  let beforeRunes := runes beforeStr in
  if len beforeRunes >? beforeSectionWidth then
    Some (string_of_runes
            (skipn (Z.to_nat (len beforeRunes - beforeSectionWidth)) beforeRunes))
  else if beforeSectionWidth >? 0 then
    pad <- Repeat (lit " ") (beforeSectionWidth - len beforeRunes) ;;
    Some (pad ++ beforeStr)
  else Some [].

Definition renderedWord (word : gostring) : list segment :=
  let truncatedWord := truncateWord word in
  let orpIdx := calculateORP truncatedWord in
  let runes := runes truncatedWord in
  wordPartsFrom 0 orpIdx runes.

Definition afterStr (m : model) (word : gostring) : gostring :=
  afterLoop (skipn (Z.to_nat (currentIdx m + 1)) (words m))
            (afterSectionWidth word + 20) [].

Definition contextAfter (m : model) (word : gostring) : option gostring :=
  let afterSectionWidth := afterSectionWidth word in
  let afterStr := afterStr m word in
  let afterRunes := runes afterStr in
  if len afterRunes >? afterSectionWidth then
    Some (string_of_runes (firstn (Z.to_nat afterSectionWidth) afterRunes))
  else if afterSectionWidth >? 0 then
    pad <- Repeat (lit " ") (afterSectionWidth - len afterRunes) ;;
    Some (afterStr ++ pad)
  else Some [].

Definition leftPadding (m : model) : Z :=
  Z.max 0 (sub64 (focusCol m) halfWidth).

Definition wordLine (m : model) : option (list segment) :=
  word <- currentWord m ;;
  contextBefore <- contextBefore m word ;;
  contextAfter <- contextAfter m word ;;
  pad <- Repeat (lit " ") (leftPadding m) ;;
  Some ((noStyle, pad) :: (contextStyle, contextBefore)
          :: renderedWord word ++ [(contextStyle, contextAfter)]).

(** The vertical bar of the focus marker, U+2502. *)
Definition focusMarker : gostring := string_of_runes [9474].

Definition focusLine (m : model) : option (list segment) :=
  pad <- Repeat (lit " ") (focusCol m) ;;
  Some [(noStyle, pad); (dimStyle, focusMarker)].

Definition noContent (m : model) : gostring :=
  if negb (is_empty_string (fileError m)) then
    fileError m ++
    lit ". Press 'o' to open a text file or provide a URL as an argument."
  else
    lit "No words to display. Press 'o' to open a text file or provide a URL as an argument.".

(** [model.View]. *)
Definition View (m : model) : option Screen :=
  if quit m then Some (Message [])
  else if (width m =? 0) || (height m =? 0) then Some (Message (lit "Loading..."))
  else if showPicker m then Some PickerScreen
  else if len (words m) =? 0 then Some (Message (noContent m))
  else
    wordLine <- wordLine m ;;
    focusLine <- focusLine m ;;
    let wordsRemaining := len (words m) - currentIdx m - 1 in
    timeRemaining <- quot64 (mul64 wordsRemaining Minute) (wpm m) ;;
    Some (Reader focusLine wordLine wordsRemaining timeRemaining).

End Rendering.


(* ================================================================== *)
(** * The vocabulary of the specification *)

(** [clamp(x, lo, hi)]. *)
Definition clamp (x lo hi : Z) : Z := Z.max lo (Z.min x hi).

(** The columns of a line that hold a highlighted glyph, counted from
    column 0. *)
Definition is_highlight (st : Style) : bool :=
  match st with highlightStyle => true | _ => false end.

Fixpoint highlightsFrom (col : Z) (gs : list (Style * rune)) : list Z :=
  match gs with
  | [] => []
  | (st, _) :: gs' =>
    if is_highlight st then col :: highlightsFrom (col + 1) gs'
    else highlightsFrom (col + 1) gs'
  end.

Definition highlightColumns (line : list segment) : list Z :=
  highlightsFrom 0 (glyphs line).

(** The right context as the specification words it: the leading [N]
    codepoints of all the following words, each preceded by one space,
    padded with spaces on the right up to [N] codepoints. *)
Definition rightContext_spec (following : list gostring) (N : Z) : list rune :=
  let all := runes (concat (map (fun w => lit " " ++ w) following)) in
  let lead := firstn (Z.to_nat N) all in
  lead ++ repeat 32 (Z.to_nat N - length lead).

(** A string that is empty or starts with an ASCII byte. *)
Definition ascii_headed (t : gostring) : Prop :=
  match t with [] => True | a :: _ => byteZ a < 128 end.

(** A byte that is white space in ASCII: tab, line feed, vertical tab,
    form feed, carriage return or blank. *)
Definition ascii_space (b : ascii) : Prop :=
  9 <= byteZ b <= 13 \/ byteZ b = 32.

(** A word as the tokenizer yields them: not empty, free of ASCII
    white space. *)
Definition word_ok (w : gostring) : Prop :=
  w <> [] /\ Forall (fun b => ~ ascii_space b) w.

(** A string of ASCII bytes only: one byte per codepoint. *)
Definition ascii_only (s : gostring) : Prop :=
  Forall (fun b => byteZ b < 128) s.

(** A word of printable ASCII characters, [!] to [~]. *)
Definition printable (w : gostring) : Prop :=
  Forall (fun b => 33 <= byteZ b <= 126) w.

(** A codepoint that every terminal draws in exactly one cell: the
    blank and the printable ASCII characters.  On a line of such
    codepoints the columns counted by [glyphs] are the cells of the
    terminal; a wide or a combining character takes two cells or
    none, and the count of codepoints is then no column. *)
Definition single_cell (r : rune) : Prop := 32 <= r <= 126.

(** The cells a terminal gives a codepoint, where that leaves no
    doubt: one for the blank and the printable ASCII characters, two
    for the CJK unified ideographs U+4E00 to U+9FFF; the width of any
    other codepoint is not modelled. *)
Definition cellWidth (r : rune) : option Z :=
  if (32 <=? r) && (r <=? 126) then Some 1
  else if (19968 <=? r) && (r <=? 40959) then Some 2
  else None.

(** The first cell of each highlighted glyph, and the cell behind the
    last glyph, counted from [cell]. *)
Fixpoint cellsFrom (cell : Z) (gs : list (Style * rune)) : option (list Z * Z) :=
  match gs with
  | [] => Some ([], cell)
  | (st, r) :: gs' =>
    match cellWidth r with
    | None => None
    | Some w =>
      match cellsFrom (cell + w) gs' with
      | None => None
      | Some (hs, total) =>
        Some (if is_highlight st then cell :: hs else hs, total)
      end
    end
  end.

(** The cells of the highlighted glyphs of a line on the terminal, and
    the cells the line takes. *)
Definition lineCells (line : list segment) : option (list Z * Z) :=
  cellsFrom 0 (glyphs line).

(** The commands that move the read position, and the index each one
    asks for before clamping. *)
Inductive Command : Type :=
| step (forward : bool)
| jump (forward : bool)
| restart
| tick.

Section Vocabulary.
Context `{Ext : External}.

(** The states of the playback machine. *)
Inductive PlaybackState : Type := Idle | Paused | Playing.

Definition state (m : model) : PlaybackState :=
  if len (words m) =? 0 then Idle
  else if paused m then Paused else Playing.

(** The reader, not the file picker, receives the messages, and the
    key bindings are those of the program. *)
Definition reading (m : model) : Prop :=
  showPicker m = false /\ keys m = Globals.keys.

(** [msg] is one of the messages that deliver the command. *)
Definition sends (c : Command) (msg : Msg) : Prop :=
  match c with
  | step true => exists k, In k (Next Globals.keys) /\ msg = KeyMsg k
  | step false => exists k, In k (Prev Globals.keys) /\ msg = KeyMsg k
  | jump true => exists k, In k (JumpFwd Globals.keys) /\ msg = KeyMsg k
  | jump false => exists k, In k (JumpBack Globals.keys) /\ msg = KeyMsg k
  | restart => exists k, In k (Restart Globals.keys) /\ msg = KeyMsg k
  | tick => msg = tickMsg
  end.

Definition requested (c : Command) (m : model) : Z :=
  match c with
  | step true => currentIdx m + 1
  | step false => currentIdx m - 1
  | jump true => currentIdx m + 10
  | jump false => currentIdx m - 10
  | restart => 0
  | tick => if paused m then currentIdx m else currentIdx m + 1
  end.

(** The alignment the specification asks of the word line: it is
    drawn, and its one highlighted glyph stands at the focus
    column. *)
Definition aligned (m : model) : Prop :=
  exists line, wordLine m = Some line /\ highlightColumns line = [focusCol m].

(** The speed change as the specification words it, for both keys. *)
Definition setSpeed_clamps (m : model) : Prop :=
  (forall k, In k (Faster Globals.keys) ->
     exists m', Update m (KeyMsg k) = Some (m', CmdNil)
                /\ wpm m' = clamp (wpm m + 25) 50 1000)
  /\ (forall k, In k (Slower Globals.keys) ->
     exists m', Update m (KeyMsg k) = Some (m', CmdNil)
                /\ wpm m' = clamp (wpm m - 25) 50 1000).

(** The message makes the picker report the selection of a file that
    reads as the text [content]. *)
Definition selects (m : model) (msg : Msg) (path content : gostring) : Prop :=
  showPicker m = true
  /\ isCancel msg = false
  /\ picker_DidSelectFile
       (fst (picker_Update (filepicker (resize m msg)) msg)) msg = Some path
  /\ ReadFile path = Some content
  /\ isBinaryFile content = false.

(** The load as the specification words it. *)
Definition load_enters_Idle_when_empty (m : model) (msg : Msg) : Prop :=
  forall path content, selects m msg path content ->
  tokenize content = [] ->
  exists m', Update m msg = Some (m', CmdNil)
             /\ state m' = Idle
             /\ (quit m' = false -> width m' <> 0 -> height m' <> 0 ->
                 View m' = Some (Message (noContent m'))).

End Vocabulary.

(* ================================================================== *)
(** * Start-up and sessions *)

(** What [main] has read before it builds the model: nothing (no
    argument, no pipe), the bytes of the standard input or of a file,
    or the text [sanitizeHTML] made of a fetched page. *)
Inductive Source : Type :=
| NoSource
| Bytes (content : gostring)
| Page (text : gostring).

(** The words [main] hands to [initialModel]; [None] when it exits
    with status 1 instead (binary content, or no word found). *)
Definition mainWords (src : Source) : option (list gostring) :=
  match src with
  | NoSource => Some []
  | Bytes content =>
    if isBinaryFile content then None
    else
      let words := tokenize content in
      if len words =? 0 then None else Some words
  | Page text =>
    let words := tokenize text in
    if len words =? 0 then None else Some words
  end.

(** The left context, codepoint by codepoint: the prior words, each
    followed by one space, cut to their last [N] codepoints or padded
    with spaces on the left up to [N]. *)
Definition leftContext_runes (prior : list gostring) (N : Z) : list rune :=
  let all := runes (concat (map (fun w => w ++ lit " ") prior)) in
  if len all >? N then skipn (Z.to_nat (len all - N)) all
  else repeat 32 (Z.to_nat (N - len all)) ++ all.

Section Sessions.
Context `{Ext : External}.

(** The model [main] starts the program with. *)
Definition mainModel (src : Source) (flag : Z) : option model :=
  words <- mainWords src ;; Some (initialModel words (clampFlag flag)).

(** A run of [Update] over the messages of a session, the commands it
    returns left to the runtime; [None] when one of them panics. *)
Fixpoint run (m : model) (msgs : list Msg) : option model :=
  match msgs with
  | [] => Some m
  | msg :: rest =>
    match Update m msg with
    | Some (m', _) => run m' rest
    | None => None
    end
  end.

(** The playback fields of two models agree. *)
Definition same_playback (m m' : model) : Prop :=
  words m' = words m /\ currentIdx m' = currentIdx m
  /\ wpm m' = wpm m /\ paused m' = paused m.

(** A slice of words short enough for its indices to be advanced by
    ten without overflow, as every slice in memory is. *)
Definition fits (ws : list gostring) : Prop := len ws + 10 <= MaxInt.

(** The widest terminal there is: the kernel reports the columns,
    and the rows, in 16-bit fields. *)
Definition maxColumns : Z := 65535.

(** A terminal reports a width and a height between 0 and
    [maxColumns]. *)
Definition sane (msg : Msg) : Prop :=
  match msg with
  | WindowSizeMsg Width Height =>
    0 <= Width <= maxColumns /\ 0 <= Height <= maxColumns
  | _ => True
  end.

(** What holds of the model throughout a session. *)
Definition Inv (m : model) : Prop :=
  50 <= wpm m <= 1000
  /\ keys m = Globals.keys
  /\ (showPicker m = true -> paused m = true)
  /\ Forall (fun w => w <> []) (words m)
  /\ fits (words m)
  /\ (words m = [] -> currentIdx m = 0 \/ currentIdx m = -1)
  /\ (words m <> [] -> 0 <= currentIdx m < len (words m))
  /\ 0 <= focusCol m <= maxColumns.

End Sessions.

(* ================================================================== *)
(** * Sample inputs *)

Module Sample.

(** A stateless picker that reports the file [notes.txt] on the key
    [enter], and a file system whose files all read as [file]. *)
Definition ext (file : option gostring) : External := {|
  Picker := unit;
  ProgressBar := unit;
  picker_New := tt;
  picker_SetHeight := fun p _ => p;
  picker_Init := fun _ => WidgetCmd 0;
  picker_Update := fun p _ => (p, CmdNil);
  picker_DidSelectFile := fun _ msg =>
    match msg with
    | KeyMsg "enter"%string => Some (lit "notes.txt")
    | _ => None
    end;
  progress_New := tt;
  progress_Update := fun p _ => (p, CmdNil);
  ReadFile := fun _ => file
|}.

(** The reader in front of [ws] on a terminal of the given width and
    24 rows. *)
Definition reader (E : External) (ws : list gostring) (idx rate : Z)
           (pause : bool) (cols : Z) : @model E := {|
  words := ws;
  currentIdx := idx;
  wpm := rate;
  paused := pause;
  width := cols;
  height := 24;
  quit := false;
  focusCol := Z.quot cols 2;
  help_Width := cols;
  keys := Globals.keys;
  progress := progress_New;
  filepicker := picker_New;
  showPicker := false;
  selectedFile := [];
  fileError := []
|}.

(** The environment of most examples: no file can be read. *)
Definition E0 : External := ext None.

(** The same model with the file picker in front. *)
Definition picking (E : External) (ws : list gostring) (idx rate : Z)
           (pause : bool) (cols : Z) : @model E :=
  set_showPicker true (reader E ws idx rate pause cols).

(** The sentence of the scenarios. *)
Definition fox : list gostring :=
  [lit "The"; lit "quick"; lit "brown"; lit "fox"].

(** Words of 40 and of 33 codepoints. *)
Definition word40 : gostring := lit "abcdefghijklmnopqrstuvwxyzabcdefghijklmn".
Definition word33 : gostring := lit "abcdefghijklmnopqrstuvwxyzabcdefg".

(** A one-letter Russian word followed by words of 12, 12 and 10
    letters, each letter two bytes long, given by their codepoints. *)
Definition russian : list gostring :=
  [ string_of_runes [1103];
    string_of_runes [1087; 1077; 1088; 1077; 1082; 1083; 1102; 1095; 1077; 1085; 1080; 1077];
    string_of_runes [1087; 1086; 1083; 1100; 1079; 1086; 1074; 1072; 1090; 1077; 1083; 1103];
    string_of_runes [1085; 1077; 1084; 1077; 1076; 1083; 1077; 1085; 1085; 1086] ].

(** Twelve short words. *)
Definition chorus : list gostring := repeat (lit "la") 12.

(** Three words of three CJK ideographs each, given by their
    codepoints. *)
Definition cjk : list gostring :=
  [ string_of_runes [38405; 35835; 22120];
    string_of_runes [36895; 24230; 24555];
    string_of_runes [20013; 25991; 23383] ].

(** The text of a file that holds white space only. *)
Definition blank : gostring := [" "; "010"; " "]%char.

End Sample.

(* ================================================================== *)
(** * Facts about the UTF-8 functions *)

Module Utf8Facts.

Lemma byteZ_range (a : ascii) : 0 <= byteZ a < 256.
Proof.
  unfold byteZ. pose proof (N_ascii_bounded a). lia.
Qed.

Lemma byteZ_byte_of (z : Z) : 0 <= z < 256 -> byteZ (byte_of z) = z.
Proof.
  intros Hz. unfold byteZ, byte_of.
  rewrite Z.mod_small by lia.
  rewrite N_ascii_embedding by lia.
  lia.
Qed.

Ltac break_if :=
  match goal with
  | |- context [if ?c then _ else _] =>
    lazymatch c with
    | true => fail
    | false => fail
    | _ => destruct c eqn:?
    end
  end; cbv beta iota.

Lemma Decode_size (s : gostring) :
  s <> [] ->
  (1 <= snd (DecodeRuneInString s) <= length s)%nat.
Proof.
  intros Hs.
  destruct s as [|s0 [|s1 [|s2 [|s3 t]]]]; [congruence| | | |];
    unfold DecodeRuneInString;
    destruct (first (byteZ s0)); repeat break_if; cbn [snd length]; lia.
Qed.

Lemma runes_loop_fuel (f1 : nat) : forall f2 s,
  (length s <= f1)%nat -> (length s <= f2)%nat ->
  runes_loop f1 s = runes_loop f2 s.
Proof.
  induction f1 as [|f1 IH]; intros f2 s H1 H2.
  - destruct s; [destruct f2; reflexivity | cbn in H1; lia].
  - destruct s as [|a s]; [destruct f2; reflexivity|].
    destruct f2 as [|f2]; [cbn in H2; lia|].
    cbn [runes_loop].
    pose proof (Decode_size (a :: s) ltac:(congruence)) as Hsz.
    destruct (DecodeRuneInString (a :: s)) as [r n]. cbn [snd] in Hsz.
    f_equal.
    assert (Hk : (length (skipn n (a :: s)) <= length s)%nat).
    { rewrite length_skipn. cbn [length]. lia. }
    cbn [length] in H1, H2.
    apply IH; lia.
Qed.

Lemma runes_nil : runes [] = [].
Proof. reflexivity. Qed.

Lemma runes_step (s : gostring) :
  s <> [] ->
  runes s = fst (DecodeRuneInString s)
            :: runes (skipn (snd (DecodeRuneInString s)) s).
Proof.
  intros Hs. destruct s as [|a s]; [congruence|].
  unfold runes at 1. cbn [runes_loop length].
  pose proof (Decode_size (a :: s) ltac:(congruence)) as Hsz.
  destruct (DecodeRuneInString (a :: s)) as [r n]. cbn [fst snd] in *.
  f_equal. apply runes_loop_fuel; rewrite length_skipn; cbn [length]; lia.
Qed.

(** Boolean tests of hypotheses and goal turned into propositions. *)
Ltac unbool :=
  repeat match goal with
  | H : (_ || _) = false |- _ => apply orb_false_iff in H; destruct H
  | H : (_ || _) = true |- _ => apply orb_true_iff in H
  | H : (_ && _) = true |- _ => apply andb_true_iff in H; destruct H
  | H : (_ && _) = false |- _ => apply andb_false_iff in H
  | H : (_ <? _) = true |- _ => apply Z.ltb_lt in H
  | H : (_ <? _) = false |- _ => apply Z.ltb_ge in H
  | H : (_ <=? _) = true |- _ => apply Z.leb_le in H
  | H : (_ <=? _) = false |- _ => apply Z.leb_gt in H
  | H : (_ >? _) = true |- _ => rewrite Z.gtb_ltb in H
  | H : (_ >? _) = false |- _ => rewrite Z.gtb_ltb in H
  | H : (_ >=? _) = true |- _ => rewrite Z.geb_leb in H
  | H : (_ >=? _) = false |- _ => rewrite Z.geb_leb in H
  | H : (_ =? _) = true |- _ => apply Z.eqb_eq in H
  | H : (_ =? _) = false |- _ => apply Z.eqb_neq in H
  | H : (_ <? _)%nat = true |- _ => apply Nat.ltb_lt in H
  | H : (_ <? _)%nat = false |- _ => apply Nat.ltb_ge in H
  | H : (_ <=? _)%nat = true |- _ => apply Nat.leb_le in H
  | H : (_ <=? _)%nat = false |- _ => apply Nat.leb_gt in H
  end.

Lemma first_Lead (b : Z) (sz : nat) (lo hi : Z) :
  first b = Lead sz lo hi ->
  (sz = 2 \/ sz = 3 \/ sz = 4)%nat /\ 128 <= lo /\ hi <= 191.
Proof.
  unfold first, locb, hicb.
  repeat break_if; intros E; inversion E; subst; lia.
Qed.

Lemma runes_ascii_cons (a : ascii) (s : gostring) :
  byteZ a < 128 -> runes (a :: s) = byteZ a :: runes s.
Proof.
  intros Ha. rewrite runes_step by congruence.
  unfold DecodeRuneInString, first.
  destruct (byteZ a <? 128) eqn:E; [reflexivity | unbool; lia].
Qed.

(** A byte below 0x80 ends whatever sequence is being decoded: the
    first rune of [s] does not depend on what follows such a byte. *)
Lemma Decode_app_ascii (s : gostring) (a : ascii) (t : gostring) :
  s <> [] -> byteZ a < 128 ->
  DecodeRuneInString (s ++ a :: t) = DecodeRuneInString s.
Proof.
  intros Hs Ha.
  destruct s as [|s0 rest]; [congruence|].
  cbn [app]. unfold DecodeRuneInString.
  destruct (first (byteZ s0)) as [| |sz lo hi] eqn:F; try reflexivity.
  apply first_Lead in F. destruct F as (Hsz & Hlo & Hhi).
  unfold locb, hicb.
  destruct rest as [|s1 [|s2 [|s3 r]]]; cbn [app];
    destruct Hsz as [-> | [-> | ->]];
    repeat break_if; try reflexivity;
    unbool; cbn [length] in *; try rewrite length_app in *;
    cbn [length] in *; try lia.
Qed.

Lemma runes_app_ascii (s : gostring) (a : ascii) (t : gostring) :
  byteZ a < 128 ->
  runes (s ++ a :: t) = runes s ++ byteZ a :: runes t.
Proof.
  intros Ha.
  remember (length s) as n eqn:Hn.
  revert s Hn. induction n as [n IH] using lt_wf_ind. intros s Hn.
  destruct s as [|s0 rest].
  - cbn [app]. rewrite runes_nil. cbn [app]. apply runes_ascii_cons, Ha.
  - assert (Hne : s0 :: rest <> []) by congruence.
    rewrite (runes_step ((s0 :: rest) ++ a :: t))
      by (cbn [app]; congruence).
    rewrite (runes_step (s0 :: rest)) by exact Hne.
    rewrite Decode_app_ascii by assumption.
    pose proof (Decode_size (s0 :: rest) Hne) as Hsz.
    set (k := snd (DecodeRuneInString (s0 :: rest))) in *.
    rewrite skipn_app.
    replace (k - length (s0 :: rest))%nat with 0%nat by lia.
    cbn [skipn].
    rewrite <- app_comm_cons. f_equal.
    apply (IH (length (skipn k (s0 :: rest)))); [|reflexivity].
    rewrite length_skipn. lia.
Qed.

(** Decoding distributes over a concatenation whose right part is
    empty or starts with an ASCII byte. *)
Lemma runes_app_headed (s t : gostring) :
  ascii_headed t -> runes (s ++ t) = runes s ++ runes t.
Proof.
  destruct t as [|a t]; intros Ht.
  - now rewrite !app_nil_r.
  - cbn in Ht. rewrite runes_app_ascii by exact Ht.
    now rewrite runes_ascii_cons.
Qed.

(** ** Bit operations as arithmetic *)

Lemma lor_add (z y k : Z) :
  0 <= k -> z mod 2 ^ k = 0 -> 0 <= y < 2 ^ k -> Z.lor z y = z + y.
Proof.
  intros Hk Hz Hy.
  assert (Hland : Z.land z y = 0).
  { apply Z.bits_inj'. intros n Hn.
    rewrite Z.land_spec, Z.bits_0.
    destruct (Z.lt_ge_cases n k) as [Hlt | Hge].
    - assert (Hzb : Z.testbit z n = false).
      { rewrite <- (Z.mod_pow2_bits_low z k n) by lia.
        rewrite Hz. apply Z.bits_0. }
      now rewrite Hzb.
    - assert (Hyb : Z.testbit y n = false).
      { rewrite <- (Z.mod_small y (2 ^ k)) by lia.
        apply Z.mod_pow2_bits_high. lia. }
      rewrite Hyb. apply andb_false_r. }
  rewrite <- Z.lxor_lor by exact Hland.
  symmetry. apply Z.add_nocarry_lxor. exact Hland.
Qed.

Lemma land_63 (x : Z) : Z.land x 63 = x mod 64.
Proof. change 63 with (Z.ones 6). now rewrite Z.land_ones by lia. Qed.

Lemma land_31 (x : Z) : Z.land x 31 = x mod 32.
Proof. change 31 with (Z.ones 5). now rewrite Z.land_ones by lia. Qed.

Lemma land_15 (x : Z) : Z.land x 15 = x mod 16.
Proof. change 15 with (Z.ones 4). now rewrite Z.land_ones by lia. Qed.

Lemma land_7 (x : Z) : Z.land x 7 = x mod 8.
Proof. change 7 with (Z.ones 3). now rewrite Z.land_ones by lia. Qed.

Lemma shiftr_6 (x : Z) : Z.shiftr x 6 = x / 64.
Proof. now rewrite Z.shiftr_div_pow2 by lia. Qed.

Lemma shiftr_12 (x : Z) : Z.shiftr x 12 = x / 4096.
Proof. now rewrite Z.shiftr_div_pow2 by lia. Qed.

Lemma shiftr_18 (x : Z) : Z.shiftr x 18 = x / 262144.
Proof. now rewrite Z.shiftr_div_pow2 by lia. Qed.

Lemma shiftl_6 (x : Z) : Z.shiftl x 6 = x * 64.
Proof. now rewrite Z.shiftl_mul_pow2 by lia. Qed.

Lemma shiftl_12 (x : Z) : Z.shiftl x 12 = x * 4096.
Proof. now rewrite Z.shiftl_mul_pow2 by lia. Qed.

Lemma shiftl_18 (x : Z) : Z.shiftl x 18 = x * 262144.
Proof. now rewrite Z.shiftl_mul_pow2 by lia. Qed.

Ltac bits :=
  unfold maskx, mask2, mask3, mask4;
  rewrite ?land_63, ?land_31, ?land_15, ?land_7,
          ?shiftr_6, ?shiftr_12, ?shiftr_18, ?shiftl_6, ?shiftl_12, ?shiftl_18.

Ltac euclid := Z.to_euclidean_division_equations; lia.

(** The trailing byte [0x80 | v&0x3F] of an encoding. *)
Lemma cont_byte (v : Z) :
  0 <= v ->
  byteZ (byte_of (Z.lor 128 (Z.land (v mod 256) maskx))) = 128 + v mod 64.
Proof.
  intros Hv. bits.
  rewrite (lor_add 128 _ 6) by (try reflexivity; euclid).
  rewrite byteZ_byte_of by euclid. euclid.
Qed.

Lemma lead_byte (base v k : Z) :
  0 <= k -> base mod 2 ^ k = 0 -> 0 <= v < 2 ^ k -> 0 <= base ->
  base + 2 ^ k <= 256 ->
  byteZ (byte_of (Z.lor base (v mod 256))) = base + v.
Proof.
  intros Hk Hb Hv Hb0 Hle.
  rewrite (Z.mod_small v 256) by lia.
  rewrite (lor_add base v k) by assumption.
  apply byteZ_byte_of. lia.
Qed.

(** ** Encoding then decoding *)

Lemma Decode_Encode (r : rune) (t : gostring) :
  valid_rune r ->
  DecodeRuneInString (EncodeRune r ++ t) = (r, length (EncodeRune r)).
Proof.
  unfold valid_rune, surrogateMin, surrogateMax, MaxRune. intros Hr.
  unfold EncodeRune, encode3, surrogateMin, surrogateMax, MaxRune.
  repeat break_if; unbool; try lia; cbn [app length].
  - (* one byte *)
    unfold DecodeRuneInString, first.
    rewrite byteZ_byte_of by lia.
    repeat break_if; unbool; try lia; reflexivity.
  - (* two bytes *)
    assert (E0 : byteZ (byte_of (Z.lor 192 (Z.shiftr r 6 mod 256))) = 192 + r / 64).
    { bits. apply (lead_byte 192 (r / 64) 5); try reflexivity; euclid. }
    assert (E1 := cont_byte r ltac:(lia)).
    unfold DecodeRuneInString, first, locb, hicb. rewrite E0, E1.
    repeat break_if; unbool; cbn [length] in *; try lia; try euclid.
    f_equal. bits.
    rewrite lor_add with (k := 6) by (try reflexivity; euclid). euclid.
  - (* three bytes *)
    assert (E0 : byteZ (byte_of (Z.lor 224 (Z.shiftr r 12 mod 256))) = 224 + r / 4096).
    { bits. apply (lead_byte 224 (r / 4096) 4); try reflexivity; euclid. }
    assert (E1 : byteZ (byte_of (Z.lor 128 (Z.land (Z.shiftr r 6 mod 256) maskx)))
                 = 128 + (r / 64) mod 64).
    { rewrite shiftr_6. apply cont_byte. euclid. }
    assert (E2 := cont_byte r ltac:(lia)).
    unfold DecodeRuneInString, first, locb, hicb. rewrite E0, E1, E2.
    repeat break_if; unbool; cbn [length] in *; try lia; try euclid.
    all: f_equal; bits.
    all: rewrite (lor_add (_ * 4096) (_ * 64) 12) by (try reflexivity; euclid).
    all: rewrite (lor_add _ _ 6) by (try reflexivity; euclid).
    all: euclid.
  - (* four bytes *)
    assert (E0 : byteZ (byte_of (Z.lor 240 (Z.shiftr r 18 mod 256))) = 240 + r / 262144).
    { bits. apply (lead_byte 240 (r / 262144) 3); try reflexivity; euclid. }
    assert (E1 : byteZ (byte_of (Z.lor 128 (Z.land (Z.shiftr r 12 mod 256) maskx)))
                 = 128 + (r / 4096) mod 64).
    { rewrite shiftr_12. apply cont_byte. euclid. }
    assert (E2 : byteZ (byte_of (Z.lor 128 (Z.land (Z.shiftr r 6 mod 256) maskx)))
                 = 128 + (r / 64) mod 64).
    { rewrite shiftr_6. apply cont_byte. euclid. }
    assert (E3 := cont_byte r ltac:(lia)).
    unfold DecodeRuneInString, first, locb, hicb. rewrite E0, E1, E2, E3.
    repeat break_if; unbool; cbn [length] in *; try lia; try euclid.
    all: f_equal; bits.
    all: rewrite (lor_add (_ * 262144) (_ * 4096) 18) by (try reflexivity; euclid).
    all: rewrite (lor_add _ (_ * 64) 12) by (try reflexivity; euclid).
    all: rewrite (lor_add _ _ 6) by (try reflexivity; euclid).
    all: euclid.
Qed.

(** ** Decoded runes are scalar values *)

Lemma compose2 (a b : Z) :
  0 <= b < 64 -> Z.lor (a * 64) b = a * 64 + b.
Proof. intros. apply (lor_add _ _ 6); [lia | euclid | lia]. Qed.

Lemma compose3 (a b c : Z) :
  0 <= b < 64 -> 0 <= c < 64 ->
  Z.lor (Z.lor (a * 4096) (b * 64)) c = a * 4096 + b * 64 + c.
Proof.
  intros. rewrite (lor_add (a * 4096) (b * 64) 12) by (try euclid; lia).
  apply (lor_add _ _ 6); [lia | euclid | lia].
Qed.

Lemma compose4 (a b c d : Z) :
  0 <= b < 64 -> 0 <= c < 64 -> 0 <= d < 64 ->
  Z.lor (Z.lor (Z.lor (a * 262144) (b * 4096)) (c * 64)) d
  = a * 262144 + b * 4096 + c * 64 + d.
Proof.
  intros. rewrite (lor_add (a * 262144) (b * 4096) 18) by (try euclid; lia).
  rewrite (lor_add _ (c * 64) 12) by (try euclid; lia).
  apply (lor_add _ _ 6); [lia | euclid | lia].
Qed.

Lemma Decode_valid (s : gostring) : valid_rune (fst (DecodeRuneInString s)).
Proof.
  unfold valid_rune, surrogateMin, surrogateMax, MaxRune.
  destruct s as [|s0 [|s1 [|s2 [|s3 t]]]];
    unfold DecodeRuneInString, first, locb, hicb, RuneError;
    try pose proof (byteZ_range s0); try pose proof (byteZ_range s1);
    try pose proof (byteZ_range s2); try pose proof (byteZ_range s3);
    repeat break_if; cbn [fst]; unbool; try lia; bits;
    rewrite ?compose2, ?compose3, ?compose4 by euclid; euclid.
Qed.

Lemma runes_valid (s : gostring) : Forall valid_rune (runes s).
Proof.
  remember (length s) as n eqn:Hn.
  revert s Hn. induction n as [n IH] using lt_wf_ind. intros s Hn.
  destruct s as [|s0 rest]; [constructor|].
  assert (Hne : s0 :: rest <> []) by congruence.
  rewrite runes_step by exact Hne.
  constructor; [apply Decode_valid|].
  pose proof (Decode_size _ Hne).
  eapply IH; [|reflexivity]. rewrite length_skipn. lia.
Qed.

Lemma runes_string_of_runes_app (rs : list rune) (t : gostring) :
  Forall valid_rune rs ->
  runes (string_of_runes rs ++ t) = rs ++ runes t.
Proof.
  induction 1 as [|r rs Hr _ IH]; [reflexivity|].
  unfold string_of_runes in *. cbn [flat_map].
  rewrite <- app_assoc.
  assert (Hlen : (1 <= length (EncodeRune r))%nat).
  { unfold EncodeRune, encode3. repeat break_if; cbn; lia. }
  rewrite runes_step
    by (destruct (EncodeRune r); [cbn in Hlen; lia | cbn; congruence]).
  rewrite Decode_Encode by exact Hr. cbn [fst snd app].
  f_equal. rewrite skipn_app, skipn_all, Nat.sub_diag. cbn [app skipn].
  exact IH.
Qed.

Lemma runes_string_of_runes (rs : list rune) :
  Forall valid_rune rs -> runes (string_of_runes rs) = rs.
Proof.
  intros H. rewrite <- (app_nil_r (string_of_runes rs)).
  rewrite runes_string_of_runes_app by exact H.
  rewrite runes_nil. apply app_nil_r.
Qed.

End Utf8Facts.
Import Utf8Facts.

Example runes_ascii : runes (lit "fox") = [102; 111; 120].
Proof. reflexivity. Qed.

(* ================================================================== *)
(** * Lists and lengths *)

Section ListFacts.
Context {A : Type}.

Lemma Forall_firstn (P : A -> Prop) (n : nat) (l : list A) :
  Forall P l -> Forall P (firstn n l).
Proof.
  intros H. revert n. induction H; intros [|n]; cbn; auto.
Qed.

Lemma Forall_skipn (P : A -> Prop) (n : nat) (l : list A) :
  Forall P l -> Forall P (skipn n l).
Proof.
  intros H. revert n. induction H; intros [|n]; cbn; auto.
Qed.

Lemma len_app (l1 l2 : list A) : len (l1 ++ l2) = len l1 + len l2.
Proof. unfold len. rewrite length_app. lia. Qed.

Lemma len_nonneg (l : list A) : 0 <= len l.
Proof. unfold len. lia. Qed.

Lemma len_firstn (n : Z) (l : list A) :
  0 <= n <= len l -> len (firstn (Z.to_nat n) l) = n.
Proof. unfold len. intros H. rewrite firstn_length_le; lia. Qed.

Lemma len_skipn (n : Z) (l : list A) :
  0 <= n <= len l -> len (skipn (Z.to_nat n) l) = len l - n.
Proof. unfold len. intros H. rewrite length_skipn. lia. Qed.

Lemma len_repeat (x : A) (n : nat) : len (repeat x n) = Z.of_nat n.
Proof. unfold len. now rewrite repeat_length. Qed.
End ListFacts.

(* ================================================================== *)
(** * The word formatter and the ORP calculator *)

Lemma RuneCount_nonneg (w : gostring) : 0 <= RuneCountInString w.
Proof. apply len_nonneg. Qed.

Lemma runes_lit_dots : runes (lit "...") = [46; 46; 46].
Proof. reflexivity. Qed.

Lemma truncateWord_short (w : gostring) :
  RuneCountInString w <= 32 -> truncateWord w = w.
Proof.
  intros H. unfold truncateWord.
  destruct (RuneCountInString w <=? 32) eqn:E; [reflexivity | unbool; lia].
Qed.

Lemma truncateWord_long (w : gostring) :
  32 < RuneCountInString w ->
  truncateWord w = string_of_runes (firstn 31 (runes w)) ++ lit "...".
Proof.
  intros H. unfold truncateWord.
  destruct (RuneCountInString w <=? 32) eqn:E; [unbool; lia | reflexivity].
Qed.

Lemma truncateWord_long_runes (w : gostring) :
  32 < RuneCountInString w ->
  runes (truncateWord w) = firstn 31 (runes w) ++ [46; 46; 46].
Proof.
  intros H. rewrite truncateWord_long by exact H.
  rewrite runes_string_of_runes_app
    by (apply Forall_firstn, runes_valid).
  now rewrite runes_lit_dots.
Qed.

Lemma truncateWord_long_count (w : gostring) :
  32 < RuneCountInString w -> RuneCountInString (truncateWord w) = 34.
Proof.
  intros H. unfold RuneCountInString at 1.
  rewrite truncateWord_long_runes by exact H.
  rewrite len_app. change 31%nat with (Z.to_nat 31).
  rewrite len_firstn; [reflexivity|].
  unfold RuneCountInString in H. lia.
Qed.

Lemma truncateWord_count (w : gostring) :
  RuneCountInString (truncateWord w)
  = if RuneCountInString w <=? 32 then RuneCountInString w else 34.
Proof.
  destruct (RuneCountInString w <=? 32) eqn:E; unbool.
  - now rewrite truncateWord_short.
  - now apply truncateWord_long_count.
Qed.

Lemma calculateORP_range (w : gostring) : 0 <= calculateORP w <= 4.
Proof. unfold calculateORP. repeat break_if; lia. Qed.

Lemma calculateORP_lt (w : gostring) :
  1 <= RuneCountInString w -> calculateORP w < RuneCountInString w.
Proof. unfold calculateORP. repeat break_if; unbool; lia. Qed.

Lemma nonempty_count (w : gostring) : w <> [] -> 1 <= RuneCountInString w.
Proof.
  intros H. unfold RuneCountInString. rewrite runes_step by exact H.
  unfold len. cbn [length]. lia.
Qed.

Lemma truncateWord_nonempty (w : gostring) :
  1 <= RuneCountInString w -> 1 <= RuneCountInString (truncateWord w).
Proof. rewrite truncateWord_count. break_if; lia. Qed.

(* ================================================================== *)
(** * The word line *)

Lemma glyphs_app (l1 l2 : list segment) :
  glyphs (l1 ++ l2) = glyphs l1 ++ glyphs l2.
Proof. apply flat_map_app. Qed.

Lemma glyphs_cons (st : Style) (s : gostring) (l : list segment) :
  glyphs ((st, s) :: l) = map (pair st) (runes s) ++ glyphs l.
Proof. reflexivity. Qed.

Lemma highlightsFrom_app (gs1 gs2 : list (Style * rune)) : forall col,
  highlightsFrom col (gs1 ++ gs2)
  = highlightsFrom col gs1 ++ highlightsFrom (col + len gs1) gs2.
Proof.
  induction gs1 as [|[st r] gs1 IH]; intros col.
  - cbn. f_equal. unfold len. cbn. lia.
  - cbn [app highlightsFrom]. rewrite IH.
    replace (col + 1 + len gs1) with (col + len ((st, r) :: gs1))
      by (unfold len; cbn [length]; lia).
    destruct (is_highlight st); reflexivity.
Qed.

Lemma highlightsFrom_plain (st : Style) (rs : list rune) : forall col,
  is_highlight st = false -> highlightsFrom col (map (pair st) rs) = [].
Proof.
  induction rs as [|r rs IH]; intros col Hst; [reflexivity|].
  cbn [map highlightsFrom]. rewrite Hst. now apply IH.
Qed.

Lemma runes_single (r : rune) : valid_rune r -> runes (string_of_runes [r]) = [r].
Proof. intros H. apply runes_string_of_runes. now constructor. Qed.

Lemma wordParts_glyphs_len (orpIdx : Z) (rs : list rune) : forall i,
  Forall valid_rune rs ->
  len (glyphs (wordPartsFrom i orpIdx rs)) = len rs.
Proof.
  induction rs as [|r rs IH]; intros i Hv; [reflexivity|].
  inversion Hv as [|? ? Hr Hrs]; subst.
  cbn [wordPartsFrom].
  assert (E : forall st, glyphs ((st, string_of_runes [r]) :: wordPartsFrom (i + 1) orpIdx rs)
              = (st, r) :: glyphs (wordPartsFrom (i + 1) orpIdx rs)).
  { intros st. rewrite glyphs_cons, runes_single by exact Hr. reflexivity. }
  destruct (i =? orpIdx); rewrite E; unfold len in *; cbn [length];
    specialize (IH (i + 1) Hrs); lia.
Qed.

Lemma wordParts_highlights (orpIdx : Z) (rs : list rune) : forall i col,
  Forall valid_rune rs ->
  highlightsFrom col (glyphs (wordPartsFrom i orpIdx rs))
  = if (i <=? orpIdx) && (orpIdx <? i + len rs) then [col + (orpIdx - i)] else [].
Proof.
  induction rs as [|r rs IH]; intros i col Hv.
  - cbn. unfold len. cbn [length].
    break_if; [unbool; lia | reflexivity].
  - inversion Hv as [|? ? Hr Hrs]; subst.
    cbn [wordPartsFrom].
    assert (Hl : len (r :: rs) = 1 + len rs) by (unfold len; cbn [length]; lia).
    rewrite Hl.
    destruct (i =? orpIdx) eqn:Ei; unbool;
      rewrite glyphs_cons, runes_single by exact Hr;
      cbn [map app highlightsFrom is_highlight];
      rewrite (IH (i + 1) (col + 1) Hrs);
      pose proof (len_nonneg rs).
    + subst i. repeat break_if; unbool; try (f_equal; lia);
        repeat match goal with H : _ \/ _ |- _ => destruct H end; unbool; lia.
    + repeat break_if; unbool; try reflexivity; try (f_equal; lia);
        repeat match goal with H : _ \/ _ |- _ => destruct H end; unbool; lia.
Qed.

(** Spaces decode to spaces. *)
Lemma runes_spaces_app (n : nat) (s : gostring) :
  runes (concat (repeat (lit " ") n) ++ s) = repeat 32 n ++ runes s.
Proof.
  induction n as [|n IH]; [reflexivity|].
  cbn [repeat concat]. change (lit " ") with [" "%char].
  cbn [app]. rewrite runes_ascii_cons by (cbv; reflexivity).
  cbn [repeat app]. f_equal. exact IH.
Qed.

Lemma runes_spaces (n : nat) :
  runes (concat (repeat (lit " ") n)) = repeat 32 n.
Proof.
  rewrite <- (app_nil_r (concat _)), runes_spaces_app, runes_nil.
  apply app_nil_r.
Qed.

Lemma spaces_headed (n : nat) : ascii_headed (concat (repeat (lit " ") n)).
Proof. destruct n; cbn; [exact I | cbv; reflexivity]. Qed.

(** A run of blanks no longer than the widest terminal is built. *)
Lemma Repeat_Some (count : Z) :
  0 <= count <= 65535 ->
  Repeat (lit " ") count = Some (concat (repeat (lit " ") (Z.to_nat count))).
Proof.
  intros H. unfold Repeat. destruct (count <? 0) eqn:E; [unbool; lia|].
  destruct (len (lit " ") * count >? maxAlloc) eqn:E2; [|reflexivity].
  unbool. change (len (lit " ")) with 1 in E2.
  change maxAlloc with 281474976710656 in E2. lia.
Qed.

Lemma Repeat_negative (s : gostring) (count : Z) :
  count < 0 -> Repeat s count = None.
Proof.
  intros H. unfold Repeat. destruct (count <? 0) eqn:E; [reflexivity | unbool; lia].
Qed.

Lemma Repeat_too_long (count : Z) :
  maxAlloc < count -> Repeat (lit " ") count = None.
Proof.
  intros H. unfold Repeat. change (len (lit " ")) with 1.
  destruct (count <? 0) eqn:E; [reflexivity|].
  destruct (1 * count >? maxAlloc) eqn:E2; [reflexivity | unbool; lia].
Qed.

Section WordLine.
Context `{Ext : External}.

Lemma beforeSectionWidth_eq (word : gostring) :
  beforeSectionWidth word = halfWidth - calculateORP (truncateWord word).
Proof.
  unfold beforeSectionWidth, halfWidth.
  pose proof (calculateORP_range (truncateWord word)). lia.
Qed.

Lemma afterSectionWidth_nonneg (word : gostring) : 0 <= afterSectionWidth word.
Proof. unfold afterSectionWidth. lia. Qed.

Lemma beforeSectionWidth_range (word : gostring) :
  0 < beforeSectionWidth word <= 30.
Proof.
  rewrite beforeSectionWidth_eq. unfold halfWidth.
  pose proof (calculateORP_range (truncateWord word)). lia.
Qed.

Lemma afterSectionWidth_range (word : gostring) :
  0 <= afterSectionWidth word <= 34.
Proof.
  unfold afterSectionWidth, halfWidth.
  pose proof (calculateORP_range (truncateWord word)).
  pose proof (RuneCount_nonneg word). lia.
Qed.

(** The left context is drawn and fills its budget exactly. *)
Lemma contextBefore_width (m : model) (word : gostring) :
  exists cb, contextBefore m word = Some cb
             /\ len (runes cb) = beforeSectionWidth word.
Proof.
  unfold contextBefore.
  set (bw := beforeSectionWidth word).
  set (beforeStr := concat _).
  pose proof (len_nonneg (runes beforeStr)) as Hn.
  assert (Hbw : 0 < bw <= 30) by apply beforeSectionWidth_range.
  destruct (len (runes beforeStr) >? bw) eqn:E1; unbool.
  - eexists; split; [reflexivity|].
    rewrite runes_string_of_runes by (apply Forall_skipn, runes_valid).
    rewrite len_skipn; lia.
  - destruct (bw >? 0) eqn:E2; unbool.
    + rewrite Repeat_Some by lia.
      eexists; split; [reflexivity|].
      rewrite runes_spaces_app, len_app, len_repeat. lia.
    + eexists; split; [reflexivity|]. rewrite runes_nil. unfold len. cbn. lia.
Qed.

(** So does the right context. *)
Lemma contextAfter_width (m : model) (word : gostring) :
  exists ca, contextAfter m word = Some ca
             /\ len (runes ca) = afterSectionWidth word.
Proof.
  unfold contextAfter.
  set (aw := afterSectionWidth word).
  set (s := afterStr m word).
  pose proof (len_nonneg (runes s)) as Hn.
  assert (Haw : 0 <= aw <= 34) by apply afterSectionWidth_range.
  destruct (len (runes s) >? aw) eqn:E1; unbool.
  - eexists; split; [reflexivity|].
    rewrite runes_string_of_runes by (apply Forall_firstn, runes_valid).
    rewrite len_firstn; lia.
  - destruct (aw >? 0) eqn:E2; unbool.
    + rewrite Repeat_Some by lia.
      eexists; split; [reflexivity|].
      rewrite runes_app_headed by apply spaces_headed.
      rewrite runes_spaces, len_app, len_repeat. lia.
    + eexists; split; [reflexivity|]. rewrite runes_nil. unfold len. cbn. lia.
Qed.

Lemma leftPadding_nonneg (m : model) : 0 <= leftPadding m.
Proof. unfold leftPadding. lia. Qed.

(** The word line is drawn whenever the current index is in range;
    its width and the column of its highlighted glyph. *)
Lemma wordLine_layout (m : model) (word : gostring) :
  currentWord m = Some word ->
  leftPadding m <= 65535 ->
  exists line,
    wordLine m = Some line
    /\ displayWidth line
       = leftPadding m + beforeSectionWidth word
         + RuneCountInString (truncateWord word) + afterSectionWidth word
    /\ highlightColumns line
       = if calculateORP (truncateWord word) <? RuneCountInString (truncateWord word)
         then [leftPadding m + halfWidth] else [].
Proof.
  intros Hw Hmax. unfold wordLine. rewrite Hw.
  destruct (contextBefore_width m word) as (cb & -> & Hcb).
  destruct (contextAfter_width m word) as (ca & -> & Hca).
  pose proof (leftPadding_nonneg m) as Hlp.
  rewrite Repeat_Some by (split; assumption).
  eexists; split; [reflexivity|].
  pose proof (runes_valid (truncateWord word)) as Hv.
  pose proof (calculateORP_range (truncateWord word)) as Horp.
  split.
  - unfold displayWidth.
    rewrite !glyphs_cons, glyphs_app, glyphs_cons.
    rewrite !len_app. unfold renderedWord.
    rewrite wordParts_glyphs_len by exact Hv.
    unfold len in *. rewrite !length_map, runes_spaces, repeat_length.
    cbn [glyphs flat_map length]. unfold RuneCountInString, len. lia.
  - unfold highlightColumns.
    rewrite !glyphs_cons, glyphs_app, glyphs_cons.
    rewrite !highlightsFrom_app.
    rewrite !highlightsFrom_plain by reflexivity.
    cbn [glyphs flat_map highlightsFrom app]. rewrite app_nil_r.
    unfold renderedWord. rewrite wordParts_highlights by exact Hv.
    unfold len in *. rewrite !length_map, runes_spaces, repeat_length.
    rewrite beforeSectionWidth_eq in Hcb.
    unfold RuneCountInString, len.
    replace (0 <=? calculateORP (truncateWord word)) with true
      by (symmetry; apply Z.leb_le; lia).
    cbn [andb]. rewrite Z.add_0_l.
    destruct (calculateORP (truncateWord word)
              <? Z.of_nat (length (runes (truncateWord word)))); [|reflexivity].
    f_equal. lia.
Qed.

End WordLine.

Lemma wrap64_small (z : Z) : MinInt <= z <= MaxInt -> wrap64 z = z.
Proof.
  unfold wrap64, MinInt, MaxInt. intros H.
  rewrite Z.mod_small; lia.
Qed.

Section Alignment.
Context `{Ext : External}.

Lemma leftPadding_eq (m : model) :
  0 <= focusCol m <= maxColumns ->
  leftPadding m = Z.max 0 (focusCol m - halfWidth) /\ leftPadding m <= 65535.
Proof.
  unfold maxColumns, leftPadding, halfWidth, sub64. intros H.
  rewrite wrap64_small by (unfold MinInt, MaxInt; lia). lia.
Qed.

Lemma word_line_width (m : model) (word : gostring) :
  currentWord m = Some word ->
  leftPadding m <= 65535 ->
  exists line,
    wordLine m = Some line
    /\ displayWidth line
       = leftPadding m + 2 * halfWidth
         + (if RuneCountInString word =? 33 then 1 else 0).
Proof.
  intros Hw Hmax.
  destruct (wordLine_layout m word Hw Hmax) as (line & Hl & Hwd & _).
  exists line. split; [exact Hl|]. rewrite Hwd.
  rewrite beforeSectionWidth_eq. unfold afterSectionWidth.
  rewrite truncateWord_count.
  pose proof (RuneCount_nonneg word) as Hn.
  unfold calculateORP. rewrite truncateWord_count. unfold halfWidth.
  repeat break_if; unbool; lia.
Qed.

(** The focus marker stands at the focus column. *)
Lemma focusLine_marker (m : model) :
  0 <= focusCol m <= maxColumns ->
  exists line,
    focusLine m = Some line
    /\ glyphs line
       = repeat (noStyle, 32) (Z.to_nat (focusCol m)) ++ [(dimStyle, 9474)].
Proof.
  intros Hf. unfold focusLine. rewrite Repeat_Some by exact Hf.
  eexists; split; [reflexivity|].
  rewrite !glyphs_cons, runes_spaces. cbn [glyphs flat_map].
  rewrite app_nil_r, map_repeat. reflexivity.
Qed.

(** [View] draws the reader screen, with that word line, whenever the
    reader is in front of a word on a terminal of known size. *)
Lemma View_reader (m : model) (word : gostring) :
  quit m = false -> width m <> 0 -> height m <> 0 -> showPicker m = false ->
  currentWord m = Some word -> 0 <= focusCol m <= maxColumns -> wpm m <> 0 ->
  exists fl wl remaining eta,
    View m = Some (Reader fl wl remaining eta)
    /\ wordLine m = Some wl /\ focusLine m = Some fl.
Proof.
  intros Hq Hw Hh Hp Hc Hf Hr.
  destruct (leftPadding_eq m Hf) as (_ & Hlp).
  destruct (wordLine_layout m word Hc Hlp) as (wl & Hwl & _).
  destruct (focusLine_marker m Hf) as (fl & Hfl & _).
  unfold View. rewrite Hq, Hp, Hwl, Hfl.
  destruct ((width m =? 0) || (height m =? 0)) eqn:E;
    [unbool; destruct E; unbool; lia|].
  destruct (len (words m) =? 0) eqn:E0.
  { unbool. unfold currentWord, index in Hc. rewrite E0 in Hc.
    destruct (0 <=? currentIdx m) eqn:E1; destruct (currentIdx m <? 0) eqn:E2;
      unbool; cbn in Hc; try discriminate; lia. }
  unfold quot64. destruct (wpm m =? 0) eqn:E1; [unbool; lia|].
  do 4 eexists. split; [reflexivity | split; reflexivity].
Qed.

End Alignment.

(** C6.  A word of more than 32 codepoints is displayed as its first 31
    codepoints followed by three dots, 34 codepoints in all; a shorter
    word is displayed unchanged; the ORP offset of the display is that
    of the truncated form, and a highlighted glyph of the rendered
    word is always one of its glyphs, at that offset. *)
Theorem truncation_then_highlight (word : gostring) :
  (32 < RuneCountInString word ->
     truncateWord word = string_of_runes (firstn 31 (runes word)) ++ lit "..."
     /\ runes (truncateWord word) = firstn 31 (runes word) ++ [46; 46; 46]
     /\ RuneCountInString (truncateWord word) = 34)
  /\ (RuneCountInString word <= 32 -> truncateWord word = word)
  /\ renderedWord word
     = wordPartsFrom 0 (calculateORP (truncateWord word)) (runes (truncateWord word))
  /\ (forall col, In col (highlightColumns (renderedWord word)) ->
        col = calculateORP (truncateWord word)
        /\ 0 <= col < RuneCountInString (truncateWord word))
  /\ (word <> [] ->
        highlightColumns (renderedWord word) = [calculateORP (truncateWord word)]).
Proof.
  assert (Hh : highlightColumns (renderedWord word)
               = if calculateORP (truncateWord word)
                    <? RuneCountInString (truncateWord word)
                 then [calculateORP (truncateWord word)] else []).
  { unfold highlightColumns, renderedWord.
    rewrite wordParts_highlights by apply runes_valid.
    pose proof (calculateORP_range (truncateWord word)) as Hr.
    replace (0 <=? calculateORP (truncateWord word)) with true
      by (symmetry; apply Z.leb_le; lia).
    cbn [andb]. unfold RuneCountInString.
    rewrite !Z.add_0_l, Z.sub_0_r. reflexivity. }
  split; [|split; [|split; [|split]]].
  - intros H. split; [|split].
    + now apply truncateWord_long.
    + now apply truncateWord_long_runes.
    + now apply truncateWord_long_count.
  - apply truncateWord_short.
  - reflexivity.
  - intros col Hin. rewrite Hh in Hin.
    pose proof (calculateORP_range (truncateWord word)) as Hr.
    destruct (calculateORP (truncateWord word)
              <? RuneCountInString (truncateWord word)) eqn:E; unbool.
    + destruct Hin as [<- | []]. lia.
    + destruct Hin.
  - intros Hne. rewrite Hh.
    pose proof (truncateWord_nonempty word (nonempty_count word Hne)) as H1.
    pose proof (calculateORP_lt _ H1) as H2.
    destruct (calculateORP (truncateWord word)
              <? RuneCountInString (truncateWord word)) eqn:E;
      [reflexivity | unbool; lia].
Qed.

(** C7 (amended).  The ORP offset follows the table over the codepoint
    count, it is monotone in that count, and on the truncated form of
    every word of at least one codepoint it is below [min l 33]. *)
Theorem orp_offset_table (w w' : gostring) :
  let l := RuneCountInString w in
  (l <= 1 -> calculateORP w = 0)
  /\ (1 < l <= 5 -> calculateORP w = 1)
  /\ (5 < l <= 9 -> calculateORP w = 2)
  /\ (9 < l <= 13 -> calculateORP w = 3)
  /\ (13 < l -> calculateORP w = 4)
  /\ (l <= RuneCountInString w' -> calculateORP w <= calculateORP w')
  /\ (1 <= l -> calculateORP (truncateWord w) < Z.min l 33).
Proof.
  cbv zeta. pose proof (truncateWord_count w) as Ht.
  destruct (RuneCountInString w <=? 32) eqn:E32;
    repeat split; intros; unfold calculateORP; try rewrite Ht;
    repeat break_if; unbool; lia.
Qed.

(* ================================================================== *)
(** * The pacing clock *)

Lemma tickInterval_eq (wpm : Z) :
  50 <= wpm <= 1000 -> tickInterval wpm = Some (60000000000 / wpm).
Proof.
  intros H. unfold tickInterval, quot64.
  destruct (wpm =? 0) eqn:E; [unbool; lia|].
  change Minute with 60000000000.
  rewrite Z.quot_div_nonneg by lia.
  rewrite wrap64_small; [reflexivity|].
  unfold MinInt, MaxInt.
  assert (0 <= 60000000000 / wpm <= 60000000000); [|lia].
  split; [apply Z.div_pos; lia|].
  apply Z.div_le_upper_bound; nia.
Qed.

(** C9 (amended).  For a rate between 50 and 1000 the interval is one
    minute, counted in nanoseconds, divided by the rate with integer
    division; its whole milliseconds are [60000 / wpm]. *)
Theorem tick_interval (wpm : Z) :
  50 <= wpm <= 1000 ->
  tickCmd wpm = Some (Tick (60000000000 / wpm))
  /\ (60000000000 / wpm) / Millisecond = 60000 / wpm
  /\ (60000 / wpm) * Millisecond <= 60000000000 / wpm
     < (60000 / wpm + 1) * Millisecond.
Proof.
  intros H. unfold tickCmd. rewrite tickInterval_eq by exact H.
  split; [reflexivity|].
  unfold Millisecond.
  assert (E : 60000000000 / wpm / 1000000 = 60000 / wpm).
  { rewrite Z.div_div by lia. rewrite (Z.mul_comm wpm).
    rewrite <- Z.div_div by lia. reflexivity. }
  split; [exact E|].
  rewrite <- E. Z.to_euclidean_division_equations. lia.
Qed.

(* ================================================================== *)
(** * The state machine *)

Ltac fields :=
  cbn [words currentIdx wpm paused width height quit focusCol help_Width keys
       progress filepicker showPicker selectedFile fileError
       set_words set_currentIdx set_wpm set_paused set_size set_quit
       set_focusCol set_help_Width set_progress set_filepicker set_showPicker
       set_selectedFile set_fileError] in *.

(** The key tests of a branch, decided by computation. *)
Ltac eval_matches :=
  repeat match goal with
  | |- context [Matches ?k ?b] =>
    let v := eval vm_compute in (Matches k b) in
    change (Matches k b) with v
  end; cbv beta iota.

Section Machine.
Context `{Ext : External}.

Lemma Update_key (m : model) (k : string) :
  showPicker m = false -> Update m (KeyMsg k) = updateKey m k.
Proof. intros H. unfold Update, resize. now rewrite H. Qed.

Lemma Update_tick (m : model) :
  showPicker m = false -> Update m tickMsg = updateTick m.
Proof. intros H. unfold Update, resize. now rewrite H. Qed.

Lemma tickCmd_eq (rate : Z) :
  50 <= rate <= 1000 -> tickCmd rate = Some (Tick (60000000000 / rate)).
Proof. intros H. unfold tickCmd. now rewrite tickInterval_eq. Qed.

(** C3.  While playing, a tick before the last word advances the
    index by exactly one, leaves the reader playing and schedules
    exactly one more tick; a tick at the last word pauses, leaves the
    index alone and schedules nothing.  Either way the words and the
    rate stay, and nothing else of the model changes. *)
Theorem tick_while_playing (m : model) :
  words m <> [] ->
  showPicker m = false ->
  paused m = false ->
  50 <= wpm m <= 1000 ->
  (currentIdx m < len (words m) - 1 ->
     exists m',
       Update m tickMsg = Some (m', Tick (60000000000 / wpm m))
       /\ currentIdx m' = currentIdx m + 1
       /\ paused m' = false
       /\ state m' = Playing
       /\ words m' = words m
       /\ wpm m' = wpm m
       /\ m' = set_currentIdx (currentIdx m + 1) m)
  /\ (currentIdx m = len (words m) - 1 ->
     exists m',
       Update m tickMsg = Some (m', CmdNil)
       /\ currentIdx m' = currentIdx m
       /\ paused m' = true
       /\ state m' = Paused
       /\ words m' = words m
       /\ wpm m' = wpm m
       /\ m' = set_paused true m).
Proof.
  intros Hw Hp Hpl Hr. rewrite Update_tick by exact Hp.
  unfold updateTick. rewrite Hpl. cbn [negb andb].
  assert (Hl : (len (words m) =? 0) = false).
  { destruct (len (words m) =? 0) eqn:E; [|reflexivity].
    unbool. destruct (words m); [congruence | discriminate]. }
  split; intros Hi.
  - destruct (currentIdx m <? len (words m) - 1) eqn:E; [|unbool; lia].
    fields. rewrite tickCmd_eq by exact Hr.
    eexists. split; [reflexivity|]. unfold state. fields.
    rewrite Hl, Hpl. repeat split; reflexivity.
  - destruct (currentIdx m <? len (words m) - 1) eqn:E; [unbool; lia|].
    destruct (currentIdx m >=? len (words m) - 1) eqn:E2; [|unbool; lia].
    fields. eexists. split; [reflexivity|]. unfold state. fields.
    rewrite Hl. repeat split; reflexivity.
Qed.

Lemma add64_small (x y : Z) : MinInt <= x + y <= MaxInt -> add64 x y = x + y.
Proof. apply wrap64_small. Qed.

Lemma sub64_small (x y : Z) : MinInt <= x - y <= MaxInt -> sub64 x y = x - y.
Proof. apply wrap64_small. Qed.

(** C4.  From an index in range, each of the commands that move the
    read position ends at the index it asks for clamped to
    [0, len-1]: the result is in range, nothing wraps and nothing
    fails. *)
Theorem index_commands_clamp (m : model) (c : Command) (msg : Msg) :
  reading m ->
  words m <> [] ->
  len (words m) + 10 <= MaxInt ->
  0 <= currentIdx m < len (words m) ->
  wpm m <> 0 ->
  sends c msg ->
  exists m' cmd,
    Update m msg = Some (m', cmd)
    /\ words m' = words m
    /\ currentIdx m' = clamp (requested c m) 0 (len (words m) - 1)
    /\ 0 <= currentIdx m' < len (words m').
Proof.
  intros [Hp Hk] Hw Hmax Hi Hr Hs.
  assert (Hint : MinInt <= currentIdx m - 10 /\ currentIdx m + 10 <= MaxInt)
    by (unfold MinInt, MaxInt in *; lia).
  unfold clamp.
  destruct c as [[|]|[|]| |]; cbn [sends requested] in *.
  1-5: destruct Hs as (k & Hin & ->); rewrite Update_key by exact Hp;
       unfold updateKey; rewrite Hk;
       cbn [In Globals.keys Next Prev JumpFwd JumpBack Restart] in Hin;
       repeat (destruct Hin as [<- | Hin]); try contradiction;
       eval_matches; fields;
       rewrite ?add64_small, ?sub64_small by (unfold MinInt, MaxInt in *; lia);
       repeat break_if; fields; do 2 eexists; (split; [reflexivity|]);
       fields; unbool; (split; [reflexivity|]); try lia.
  subst msg. rewrite Update_tick by exact Hp. unfold updateTick.
  assert (Ht : exists ct, tickCmd (wpm m) = Some ct).
  { unfold tickCmd, tickInterval, quot64.
    destruct (wpm m =? 0) eqn:E0; [unbool; lia | eexists; reflexivity]. }
  destruct Ht as (ct & Ht).
  destruct (paused m) eqn:Epa; cbn [negb andb].
  - destruct (currentIdx m >=? len (words m) - 1) eqn:E1; fields;
      rewrite ?Epa; cbn [negb]; do 2 eexists; (split; [reflexivity|]);
      fields; (split; [reflexivity|]); lia.
  - destruct (currentIdx m <? len (words m) - 1) eqn:E2; unbool.
    + fields. rewrite Ht. do 2 eexists. split; [reflexivity|].
      fields. split; [reflexivity|]. lia.
    + destruct (currentIdx m >=? len (words m) - 1) eqn:E1; [|unbool; lia].
      fields. do 2 eexists. split; [reflexivity|].
      fields. split; [reflexivity|]. lia.
Qed.

End Machine.

Section Speed.
Context `{Ext : External}.

(** ** Speed *)

Lemma faster_key (m : model) (k : string) :
  reading m -> In k (Faster Globals.keys) ->
  exists m', Update m (KeyMsg k) = Some (m', CmdNil)
             /\ wpm m' = Z.min (add64 (wpm m) 25) 1000.
Proof.
  intros [Hp Hk] Hin. rewrite Update_key by exact Hp.
  unfold updateKey. rewrite Hk.
  cbn [In Globals.keys Faster] in Hin.
  repeat (destruct Hin as [<- | Hin]); try contradiction;
    eval_matches; fields; break_if; fields;
    eexists; (split; [reflexivity|]); fields; unbool; lia.
Qed.

Lemma slower_key (m : model) (k : string) :
  reading m -> In k (Slower Globals.keys) ->
  exists m', Update m (KeyMsg k) = Some (m', CmdNil)
             /\ wpm m' = Z.max (sub64 (wpm m) 25) 50.
Proof.
  intros [Hp Hk] Hin. rewrite Update_key by exact Hp.
  unfold updateKey. rewrite Hk.
  cbn [In Globals.keys Slower] in Hin.
  repeat (destruct Hin as [<- | Hin]); try contradiction;
    eval_matches; fields; break_if; fields;
    eexists; (split; [reflexivity|]); fields; unbool; lia.
Qed.

(** C8.  For every rate the program can hold, that is within the
    range 50..1000 that [main] establishes and every message
    preserves, either speed key yields [clamp (wpm ± 25) 50 1000];
    at 1000 a further increase, and at 50 a further decrease, changes
    nothing. *)
Theorem speed_change_in_range (m : model) :
  reading m ->
  50 <= wpm m <= 1000 ->
  setSpeed_clamps m
  /\ (wpm m = 1000 -> forall k, In k (Faster Globals.keys) ->
        exists m', Update m (KeyMsg k) = Some (m', CmdNil) /\ wpm m' = 1000)
  /\ (wpm m = 50 -> forall k, In k (Slower Globals.keys) ->
        exists m', Update m (KeyMsg k) = Some (m', CmdNil) /\ wpm m' = 50).
Proof.
  intros Hr Hw.
  assert (Ha : add64 (wpm m) 25 = wpm m + 25)
    by (apply add64_small; unfold MinInt, MaxInt; lia).
  assert (Hs : sub64 (wpm m) 25 = wpm m - 25)
    by (apply sub64_small; unfold MinInt, MaxInt; lia).
  unfold setSpeed_clamps, clamp.
  repeat split; intros;
    match goal with
    | H : In _ (Faster _) |- _ =>
      destruct (faster_key m _ Hr H) as (m' & Hu & Hv)
    | H : In _ (Slower _) |- _ =>
      destruct (slower_key m _ Hr H) as (m' & Hu & Hv)
    end;
    exists m'; (split; [exact Hu|]); lia.
Qed.

(** The rate stays within 50..1000 whatever the message. *)
Lemma wpm_range_preserved (m m' : model) (msg : Msg) (c : Cmd) :
  Update m msg = Some (m', c) ->
  50 <= wpm m <= 1000 -> 50 <= wpm m' <= 1000.
Proof.
  intros Hu Hw.
  assert (Ha : add64 (wpm m) 25 = wpm m + 25)
    by (apply add64_small; unfold MinInt, MaxInt; lia).
  assert (Hs : sub64 (wpm m) 25 = wpm m - 25)
    by (apply sub64_small; unfold MinInt, MaxInt; lia).
  assert (Hrs : wpm (resize m msg) = wpm m) by (destruct msg; reflexivity).
  unfold Update in Hu. rewrite <- Hrs in Hw, Ha, Hs.
  set (m1 := resize m msg) in *. clearbody m1.
  destruct (showPicker m1).
  - unfold updatePicker in Hu.
    destruct (isCancel msg); [inversion Hu; subst; exact Hw|].
    destruct (picker_Update (filepicker m1) msg) as [fp cmd].
    fields.
    destruct (picker_DidSelectFile fp msg) as [path|];
      [|inversion Hu; subst; exact Hw].
    destruct (ReadFile path) as [content|]; [|inversion Hu; subst; exact Hw].
    destruct (isBinaryFile content); [inversion Hu; subst; exact Hw|].
    destruct (len (tokenize content) >? 0); inversion Hu; subst; exact Hw.
  - destruct msg; try (inversion Hu; subst; exact Hw).
    + unfold updateKey in Hu.
      repeat match type of Hu with
      | context [if ?b then _ else _] => destruct b eqn:?; fields
      | context [tickCmd ?w] => destruct (tickCmd w)
      end;
      inversion Hu; subst; fields; unbool; lia.
    + unfold updateTick in Hu.
      repeat match type of Hu with
      | context [if ?b then _ else _] => destruct b eqn:?; fields
      | context [tickCmd ?w] => destruct (tickCmd w)
      end;
      inversion Hu; subst; fields; unbool; lia.
    + destruct (progress_Update (progress m1) FrameMsg).
      inversion Hu; subst; exact Hw.
Qed.

Lemma clampFlag_range (w : Z) : 50 <= clampFlag w <= 1000.
Proof. unfold clampFlag. repeat break_if; unbool; lia. Qed.

End Speed.

(** ** Loading and the idle state *)

Section Loading.
Context `{Ext : External}.

Lemma len_zero_iff {A} (l : list A) : len l = 0 <-> l = [].
Proof.
  unfold len. destruct l; cbn [length]; split; intros H;
    try reflexivity; try lia; congruence.
Qed.

Lemma resize_words (m : model) (msg : Msg) :
  words (resize m msg) = words m
  /\ currentIdx (resize m msg) = currentIdx m
  /\ paused (resize m msg) = paused m
  /\ showPicker (resize m msg) = showPicker m
  /\ wpm (resize m msg) = wpm m
  /\ quit (resize m msg) = quit m
  /\ fileError (resize m msg) = fileError m.
Proof. destruct msg; repeat split. Qed.

(** What the selection of a readable text file does. *)
Lemma load_result (m : model) (msg : Msg) (path content : gostring) :
  selects m msg path content ->
  exists m',
    Update m msg = Some (m', CmdNil)
    /\ showPicker m' = false
    /\ quit m' = quit m
    /\ width m' = width (resize m msg) /\ height m' = height (resize m msg)
    /\ if len (tokenize content) >? 0
       then words m' = tokenize content /\ currentIdx m' = 0
            /\ paused m' = true /\ selectedFile m' = path /\ fileError m' = []
       else words m' = words m /\ currentIdx m' = currentIdx m
            /\ paused m' = paused m
            /\ fileError m' = lit "No words found in file".
Proof.
  intros (Hp & Hc & Hsel & Hread & Hbin).
  destruct (resize_words m msg) as (Hw & Hi & Hpa & Hsp & _ & Hq & _).
  unfold Update. rewrite Hsp, Hp. unfold updatePicker. rewrite Hc.
  destruct (picker_Update (filepicker (resize m msg)) msg) as [fp cmd] eqn:Epu.
  cbn [fst] in Hsel. fields. rewrite Hsel, Hread, Hbin.
  destruct (len (tokenize content) >? 0) eqn:E;
    eexists; (split; [reflexivity|]); fields; auto 10.
Qed.

(** The renderer on an empty sequence: no word is ever indexed. *)
Lemma View_empty (m : model) :
  words m = [] ->
  exists s, View m = Some s
    /\ (forall f w a b, s <> Reader f w a b)
    /\ (quit m = false -> width m <> 0 -> height m <> 0 ->
        showPicker m = false -> s = Message (noContent m)).
Proof.
  intros Hw. unfold View. rewrite Hw.
  change (len (@nil gostring) =? 0) with true.
  destruct (quit m); [|destruct ((width m =? 0) || (height m =? 0)) eqn:E;
                       [|destruct (showPicker m)]];
    eexists; (split; [reflexivity|]); (split; [intros; discriminate|]);
    intros; try discriminate; try reflexivity; unbool.
  destruct E; unbool; lia.
Qed.

(** The reader screen does not depend on the recorded error, the
    widgets or the pause flag. *)
Lemma View_ext (m1 m2 : model) :
  quit m1 = quit m2 -> width m1 = width m2 -> height m1 = height m2 ->
  showPicker m1 = showPicker m2 -> words m1 = words m2 ->
  currentIdx m1 = currentIdx m2 -> focusCol m1 = focusCol m2 ->
  wpm m1 = wpm m2 -> words m1 <> [] ->
  View m1 = View m2.
Proof.
  intros Hq Hw Hh Hp Hws Hi Hf Hr Hne.
  unfold View, wordLine, focusLine, currentWord, contextBefore, contextAfter,
    afterStr, leftPadding.
  rewrite Hq, Hw, Hh, Hp, Hws, Hi, Hf, Hr.
  destruct (len (words m2) =? 0) eqn:E; [|reflexivity].
  unbool. apply len_zero_iff in E. congruence.
Qed.

(** In front of words the reader never shows a plain message. *)
Lemma View_words (m : model) (text : gostring) :
  words m <> [] -> quit m = false -> width m <> 0 -> height m <> 0 ->
  showPicker m = false -> View m <> Some (Message text).
Proof.
  intros Hne Hq Hw Hh Hp. unfold View. rewrite Hq, Hp.
  destruct ((width m =? 0) || (height m =? 0)) eqn:E;
    [unbool; destruct E; unbool; lia|].
  destruct (len (words m) =? 0) eqn:El.
  { unbool. apply len_zero_iff in El. congruence. }
  destruct (wordLine m); [|discriminate].
  destruct (focusLine m); [|discriminate].
  destruct (quot64 _ _); discriminate.
Qed.

(** What the selection of a file without words leaves of the
    screen. *)
Lemma load_blank_screen (m : model) (msg : Msg) (path content : gostring) :
  selects m msg path content ->
  tokenize content = [] ->
  exists m',
    Update m msg = Some (m', CmdNil)
    /\ quit m' = quit (resize m msg)
    /\ width m' = width (resize m msg) /\ height m' = height (resize m msg)
    /\ showPicker m' = false
    /\ words m' = words (resize m msg)
    /\ currentIdx m' = currentIdx (resize m msg)
    /\ focusCol m' = focusCol (resize m msg)
    /\ wpm m' = wpm (resize m msg).
Proof.
  intros (Hp & Hc & Hsel & Hread & Hbin) Ht.
  destruct (resize_words m msg) as (_ & _ & _ & Hsp & _).
  unfold Update. rewrite Hsp, Hp. unfold updatePicker. rewrite Hc.
  destruct (picker_Update (filepicker (resize m msg)) msg) as [fp cmd] eqn:Epu.
  cbn [fst] in Hsel. fields. rewrite Hsel, Hread, Hbin, Ht.
  change (len (@nil gostring) >? 0) with false. cbv iota.
  eexists. split; [reflexivity|]. fields. repeat split.
Qed.

(** C2 (amended).  The selection of a file whose text holds words
    loads them: the engine is Paused at index 0 in front of the new
    words.  When the text holds no word the engine keeps its words,
    index and pause flag, so its state is the one it had, closes the
    picker and records the error "No words found in file".  The
    renderer then shows the no-content message, with that error, when
    no document was loaded before; when one was, it shows no message
    but the reader screen of the previous document, the one it shows
    for the model before the selection with the picker closed. *)
Theorem load_document (m : model) (msg : Msg) (path content : gostring) :
  selects m msg path content ->
  exists m',
    Update m msg = Some (m', CmdNil)
    /\ showPicker m' = false
    /\ (tokenize content <> [] ->
        words m' = tokenize content /\ currentIdx m' = 0
        /\ paused m' = true /\ state m' = Paused)
    /\ (tokenize content = [] ->
        words m' = words m /\ currentIdx m' = currentIdx m
        /\ paused m' = paused m /\ state m' = state m
        /\ fileError m' = lit "No words found in file"
        /\ (words m = [] -> quit m' = false -> width m' <> 0 -> height m' <> 0 ->
            View m' = Some (Message
              (lit "No words found in file. Press 'o' to open a text file or provide a URL as an argument.")))
        /\ (words m <> [] ->
            View m' = View (set_showPicker false (resize m msg))
            /\ (quit m' = false -> width m' <> 0 -> height m' <> 0 ->
                forall text, View m' <> Some (Message text)))).
Proof.
  intros Hs.
  destruct (load_result m msg path content Hs) as (m' & Hu & Hsp & Hq & _ & _ & Hr).
  exists m'. split; [exact Hu|]. split; [exact Hsp|].
  pose proof (len_nonneg (tokenize content)) as Hn.
  pose proof (len_zero_iff (tokenize content)) as Hz.
  destruct (len (tokenize content) >? 0) eqn:E; unbool; split; intros Ht.
  - destruct Hr as (Hw & Hi & Hpa & _). repeat split; try assumption.
    unfold state. rewrite Hw, Hpa.
    destruct (len (tokenize content) =? 0) eqn:E0; [unbool; lia | reflexivity].
  - apply Hz in Ht. lia.
  - exfalso. apply Ht, Hz. lia.
  - destruct Hr as (Hw & Hi & Hpa & Hfe).
    split; [exact Hw|]. split; [exact Hi|]. split; [exact Hpa|].
    split; [unfold state; now rewrite Hw, Hpa|].
    split; [exact Hfe|]. split.
    + intros Hwe Hqt Hwd Hht.
      destruct (View_empty m' ltac:(congruence)) as (s & Hv & _ & Hmsg).
      rewrite Hv, (Hmsg Hqt Hwd Hht Hsp).
      unfold noContent. rewrite Hfe. reflexivity.
    + intros Hne.
      destruct (load_blank_screen m msg path content Hs Ht)
        as (m1 & Hu1 & Hq1 & Hw1 & Hh1 & Hp1 & Hws1 & Hi1 & Hf1 & Hr1).
      rewrite Hu in Hu1. inversion Hu1; subst m1; clear Hu1.
      split.
      * apply View_ext; fields; try assumption. congruence.
      * intros Hqt Hwd Hht text.
        apply View_words; try assumption. congruence.
Qed.

(** C10.  With no words loaded and the index at 0, a jump forward
    leaves the index at -1, while a step either way and a jump
    backward leave it at 0; [View] on an empty sequence returns
    without indexing it, with the no-content message when the reader
    is shown; and a load that finds words puts the index back
    to 0. *)
Theorem idle_index (m : model) :
  reading m ->
  words m = [] ->
  currentIdx m = 0 ->
  (forall msg, sends (jump true) msg ->
     exists m', Update m msg = Some (m', CmdNil)
                /\ words m' = [] /\ currentIdx m' = len (words m) - 1
                /\ currentIdx m' = -1)
  /\ (forall c msg, c = step true \/ c = step false \/ c = jump false ->
      sends c msg ->
      exists m', Update m msg = Some (m', CmdNil)
                 /\ words m' = [] /\ currentIdx m' = 0)
  /\ (forall m1, words m1 = [] ->
      exists s, View m1 = Some s
        /\ (forall f w a b, s <> Reader f w a b)
        /\ (quit m1 = false -> width m1 <> 0 -> height m1 <> 0 ->
            showPicker m1 = false -> s = Message (noContent m1)))
  /\ (forall m1 msg path content,
      selects m1 msg path content -> tokenize content <> [] ->
      exists m', Update m1 msg = Some (m', CmdNil)
                 /\ words m' = tokenize content /\ currentIdx m' = 0).
Proof.
  intros [Hp Hk] Hw Hi.
  split; [|split; [|split]].
  - intros msg (k & Hin & ->). rewrite Update_key by exact Hp.
    unfold updateKey. rewrite Hk.
    cbn [In Globals.keys JumpFwd] in Hin.
    destruct Hin as [<- | []]. eval_matches. fields.
    rewrite Hi, Hw. change (add64 0 10) with 10.
    change (len (@nil gostring)) with 0. cbn [Z.geb Z.compare].
    fields. eexists. repeat split; assumption.
  - intros c msg Hc Hs.
    destruct Hc as [-> | [-> | ->]]; cbn [sends] in Hs;
      destruct Hs as (k & Hin & ->); rewrite Update_key by exact Hp;
      unfold updateKey; rewrite Hk;
      cbn [In Globals.keys Next Prev JumpBack] in Hin;
      repeat (destruct Hin as [<- | Hin]); try contradiction;
      eval_matches; fields; rewrite ?Hi, ?Hw;
      try change (sub64 0 10) with (-10);
      change (len (@nil gostring)) with 0;
      cbn [Z.gtb Z.ltb Z.compare Z.sub Z.opp Z.add Z.pos_sub]; fields;
      eexists; repeat split; assumption.
  - apply View_empty.
  - intros m1 msg path content Hs Ht.
    destruct (load_result m1 msg path content Hs)
      as (m' & Hu & _ & _ & _ & _ & Hr).
    exists m'. split; [exact Hu|].
    destruct (len (tokenize content) >? 0) eqn:E; unbool.
    + destruct Hr as (? & ? & _). now split.
    + exfalso. apply Ht, len_zero_iff.
      pose proof (len_nonneg (tokenize content)). lia.
Qed.

End Loading.

(* ================================================================== *)
(** * The right context *)

Lemma runes_ascii_only (s : gostring) : ascii_only s -> runes s = map byteZ s.
Proof.
  induction 1 as [|b s Hb _ IH]; [reflexivity|].
  rewrite runes_ascii_cons by exact Hb. cbn [map]. now f_equal.
Qed.

Lemma ascii_only_app (s t : gostring) :
  ascii_only s -> ascii_only t -> ascii_only (s ++ t).
Proof. intros Hs Ht. apply Forall_app. now split. Qed.

Lemma ascii_only_following (ws : list gostring) :
  Forall ascii_only ws ->
  ascii_only (concat (map (fun w => lit " " ++ w) ws)).
Proof.
  induction 1 as [|w ws Hw _ IH]; [constructor|].
  cbn [map concat]. apply ascii_only_app; [|exact IH].
  apply ascii_only_app; [|exact Hw].
  constructor; [cbv; reflexivity | constructor].
Qed.

(** The scan gathers a prefix of the following words, and stops short
    of the end only once the builder holds [limit] bytes. *)
Lemma afterLoop_prefix (rest : list gostring) (limit : Z) : forall acc,
  exists k,
    (k <= length rest)%nat
    /\ afterLoop rest limit acc
       = acc ++ concat (map (fun w => lit " " ++ w) (firstn k rest))
    /\ (k = length rest \/ limit <= len (afterLoop rest limit acc)).
Proof.
  induction rest as [|w rest IH]; intros acc.
  - exists 0%nat. cbn. rewrite app_nil_r. auto.
  - cbn [afterLoop]. destruct (len acc <? limit) eqn:E; unbool.
    + destruct (IH (acc ++ lit " " ++ w)) as (k & Hk & Heq & Hstop).
      exists (S k). split; [cbn [length]; lia|]. split.
      * rewrite Heq. cbn [firstn map concat]. now rewrite <- !app_assoc.
      * destruct Hstop as [-> | Hlim]; [left; reflexivity | right; exact Hlim].
    + exists 0%nat. cbn [firstn map concat length]. rewrite app_nil_r.
      split; [lia|]. split; [reflexivity | right; exact E].
Qed.

Section RightContext.
Context `{Ext : External}.

(** On ASCII text, where a byte is a codepoint, the right context is
    the one the specification describes. *)
Lemma right_context_ascii (m : model) (word : gostring) :
  currentWord m = Some word ->
  Forall ascii_only (skipn (Z.to_nat (currentIdx m + 1)) (words m)) ->
  exists ca,
    contextAfter m word = Some ca
    /\ runes ca
       = rightContext_spec (skipn (Z.to_nat (currentIdx m + 1)) (words m))
                           (afterSectionWidth word).
Proof.
  intros Hw Hasc.
  set (following := skipn (Z.to_nat (currentIdx m + 1)) (words m)) in *.
  unfold contextAfter, afterStr. fold following.
  set (N := afterSectionWidth word).
  assert (HN : 0 <= N <= 34) by apply afterSectionWidth_range.
  destruct (afterLoop_prefix following (N + 20) []) as (k & Hk & Heq & Hstop).
  set (s := afterLoop following (N + 20) []) in *.
  cbn [app] in Heq.
  unfold rightContext_spec.
  set (full := concat (map (fun w => lit " " ++ w) following)).
  assert (Hfull : full = s ++ concat (map (fun w => lit " " ++ w) (skipn k following))).
  { rewrite Heq. unfold full.
    now rewrite <- concat_app, <- map_app, firstn_skipn. }
  assert (Hs_ascii : ascii_only s).
  { rewrite Heq. apply ascii_only_following.
    apply Forall_firstn. exact Hasc. }
  assert (Ht_ascii : ascii_only (concat (map (fun w => lit " " ++ w) (skipn k following)))).
  { apply ascii_only_following, Forall_skipn. exact Hasc. }
  assert (Hrfull : runes full
                   = runes s ++ runes (concat (map (fun w => lit " " ++ w)
                                                   (skipn k following)))).
  { rewrite Hfull, !runes_ascii_only; auto using ascii_only_app.
    apply map_app. }
  assert (Hlen : len (runes s) = len s).
  { rewrite runes_ascii_only by exact Hs_ascii. unfold len.
    now rewrite length_map. }
  assert (Hend : len (runes s) <= N -> runes full = runes s).
  { intros Hle. destruct Hstop as [-> | Hlim]; [|lia].
    rewrite Hrfull, skipn_all. cbn [map concat]. rewrite runes_nil.
    apply app_nil_r. }
  destruct (len (runes s) >? N) eqn:E1; unbool.
  - eexists; split; [reflexivity|].
    rewrite runes_string_of_runes by (apply Forall_firstn, runes_valid).
    rewrite Hrfull, firstn_app.
    replace (Z.to_nat N - length (runes s))%nat with 0%nat
      by (unfold len in E1; lia).
    cbn [firstn]. rewrite app_nil_r.
    rewrite firstn_length_le by (unfold len in E1; lia).
    rewrite Nat.sub_diag. cbn [repeat]. now rewrite app_nil_r.
  - rewrite (Hend E1).
    rewrite firstn_all2 by (unfold len in E1; lia).
    destruct (N >? 0) eqn:E2; unbool.
    + rewrite Repeat_Some by (pose proof (len_nonneg (runes s)); lia).
      eexists; split; [reflexivity|].
      rewrite runes_app_headed by apply spaces_headed.
      rewrite runes_spaces. f_equal. f_equal. unfold len. lia.
    + eexists; split; [reflexivity|].
      assert (N = 0) by lia.
      assert (Hz : length (runes s) = 0%nat)
        by (pose proof (len_nonneg (runes s)); unfold len in *; lia).
      destruct (runes s); [|cbn in Hz; lia].
      replace (Z.to_nat N) with 0%nat by lia. reflexivity.
Qed.

End RightContext.

(** C5, at the failing input: behind a one-letter word the budget is
    29 codepoints, the scan stops after two twelve-letter Russian
    words because they make 50 bytes, and the 26 codepoints gathered
    are padded with three spaces, although a third word follows whose
    first letters the specification puts there. *)
Theorem right_context_counts_bytes :
  let m := Sample.reader (Sample.ext None) Sample.russian 0 500 true 80 in
  exists word ca,
    currentWord m = Some word
    /\ contextAfter m word = Some ca
    /\ afterSectionWidth word = 29
    /\ runes ca
       = runes (afterStr m word) ++ [32; 32; 32]
    /\ len (afterStr m word) = 50
    /\ rightContext_spec (skipn 1 (words m)) 29
       = runes (afterStr m word) ++ [32; 1085; 1077]
    /\ runes ca <> rightContext_spec (skipn 1 (words m)) 29.
Proof.
  cbv zeta. do 2 eexists.
  split; [vm_compute; reflexivity|].
  split; [vm_compute; reflexivity|].
  repeat split; try (vm_compute; reflexivity).
  vm_compute. discriminate.
Qed.

(* ================================================================== *)
(** * What every message preserves *)

(** The tokenizer never yields an empty word. *)
Lemma tokenize_nonempty (text : gostring) :
  Forall (fun w => w <> []) (tokenize text).
Proof.
  unfold tokenize.
  assert (G : forall fs acc, Forall (fun w : gostring => w <> []) acc ->
            Forall (fun w : gostring => w <> [])
              (fold_left (fun words f =>
                 if negb (is_empty_string f) then words ++ [f] else words) fs acc)).
  { induction fs as [|f fs IH]; intros acc Hacc; [exact Hacc|].
    cbn [fold_left]. apply IH.
    destruct f as [|b f]; cbn [is_empty_string negb]; [exact Hacc|].
    apply Forall_app. split; [exact Hacc|]. constructor; [congruence | constructor]. }
  apply G. constructor.
Qed.

Section Invariant.
Context `{Ext : External}.

(** Whatever the message and the key bindings, an index in range
    stays in range, also across a load. *)
Lemma index_range_preserved (m m' : model) (msg : Msg) (c : Cmd) :
  Update m msg = Some (m', c) ->
  len (words m) + 10 <= MaxInt ->
  0 <= currentIdx m < len (words m) ->
  0 <= currentIdx m' < len (words m').
Proof.
  intros Hu Hmax Hi.
  assert (Ha : add64 (currentIdx m) 10 = currentIdx m + 10)
    by (apply add64_small; unfold MinInt, MaxInt in *; lia).
  assert (Hs : sub64 (currentIdx m) 10 = currentIdx m - 10)
    by (apply sub64_small; unfold MinInt, MaxInt in *; lia).
  destruct (resize_words m msg) as (Hw & Hx & _).
  unfold Update in Hu. rewrite <- Hw, <- Hx in *.
  set (m1 := resize m msg) in *. clearbody m1.
  destruct (showPicker m1).
  - unfold updatePicker in Hu.
    destruct (isCancel msg); [inversion Hu; subst; exact Hi|].
    destruct (picker_Update (filepicker m1) msg) as [fp cmd].
    fields.
    destruct (picker_DidSelectFile fp msg) as [path|];
      [|inversion Hu; subst; exact Hi].
    destruct (ReadFile path) as [content|]; [|inversion Hu; subst; exact Hi].
    destruct (isBinaryFile content); [inversion Hu; subst; exact Hi|].
    destruct (len (tokenize content) >? 0) eqn:E;
      inversion Hu; subst; fields; unbool; lia.
  - destruct msg; try (inversion Hu; subst; exact Hi).
    + unfold updateKey in Hu.
      repeat match type of Hu with
      | context [if ?b then _ else _] => destruct b eqn:?; fields
      | context [tickCmd ?w] => destruct (tickCmd w)
      end;
      inversion Hu; subst; fields; unbool; lia.
    + unfold updateTick in Hu.
      repeat match type of Hu with
      | context [if ?b then _ else _] => destruct b eqn:?; fields
      | context [tickCmd ?w] => destruct (tickCmd w)
      end;
      inversion Hu; subst; fields; unbool; lia.
    + destruct (progress_Update (progress m1) FrameMsg).
      inversion Hu; subst; exact Hi.
Qed.

End Invariant.

(* ================================================================== *)
(** * The input filters: [isBinaryFile] and [tokenize] *)

Lemma In_firstn_nth {A} (x : A) (l : list A) : forall n,
  In x (firstn n l) <-> exists i, (i < n)%nat /\ nth_error l i = Some x.
Proof.
  induction l as [|a l IH]; intros n.
  - rewrite firstn_nil. split; [intros [] | intros (i & _ & H); destruct i; discriminate].
  - destruct n as [|n]; cbn [firstn].
    + split; [intros [] | intros (i & H & _); lia].
    + cbn [In]. rewrite IH. split.
      * intros [-> | (i & Hi & Hn)].
        -- exists 0%nat. split; [lia | reflexivity].
        -- exists (S i). split; [lia | exact Hn].
      * intros ([|i] & Hi & Hn); cbn in Hn.
        -- left. congruence.
        -- right. exists i. split; [lia | exact Hn].
Qed.

(** X1.  [isBinaryFile] answers true exactly when one of the first
    8192 bytes of the content is zero; a zero byte further on, or an
    empty content, does not count. *)
Theorem isBinaryFile_iff (content : gostring) :
  isBinaryFile content = true
  <-> exists i b, 0 <= i < 8192 /\ index content i = Some b /\ byteZ b = 0.
Proof.
  unfold isBinaryFile. rewrite existsb_exists.
  assert (E : firstn (Z.to_nat (Z.min 8192 (len content))) content
              = firstn (Z.to_nat 8192) content).
  { unfold len. destruct (Z.le_ge_cases 8192 (Z.of_nat (length content))) as [H | H].
    - rewrite Z.min_l by exact H. reflexivity.
    - rewrite Z.min_r by exact H. rewrite Nat2Z.id.
      rewrite firstn_all. symmetry. apply firstn_all2. lia. }
  rewrite E. split.
  - intros (b & Hin & Hz). apply In_firstn_nth in Hin.
    destruct Hin as (i & Hi & Hn). exists (Z.of_nat i), b. unbool.
    assert (Hlen : (i < length content)%nat)
      by (apply nth_error_Some; congruence).
    split; [lia|]. split; [|exact Hz].
    unfold index, len. rewrite Nat2Z.id.
    destruct ((0 <=? Z.of_nat i) && (Z.of_nat i <? Z.of_nat (length content))) eqn:Eb;
      [exact Hn | unbool; destruct Eb; unbool; lia].
  - intros (i & b & Hi & Hn & Hz). exists b. split.
    + apply In_firstn_nth. exists (Z.to_nat i). split; [lia|].
      unfold index in Hn.
      destruct ((0 <=? i) && (i <? len content)); [exact Hn | discriminate].
    + apply Z.eqb_eq. exact Hz.
Qed.

(** The bytes of one decoded rune are all at least 0x80, unless the
    rune is the single ASCII byte itself. *)
Lemma Decode_bytes (s : gostring) :
  s <> [] ->
  Forall (fun b => 128 <= byteZ b \/ byteZ b = fst (DecodeRuneInString s))
         (firstn (snd (DecodeRuneInString s)) s).
Proof.
  intros Hs.
  destruct s as [|s0 [|s1 [|s2 [|s3 t]]]]; [congruence| | | |];
    unfold DecodeRuneInString, first, locb, hicb;
    repeat break_if; cbn [fst snd firstn]; unbool;
    repeat (constructor; try lia).
Qed.

Lemma not_space_chunk (s : gostring) :
  s <> [] ->
  Strings.IsSpace (fst (DecodeRuneInString s)) = false ->
  Forall (fun b => ~ ascii_space b) (firstn (snd (DecodeRuneInString s)) s).
Proof.
  intros Hs Hsp. pose proof (Decode_bytes s Hs) as Hb.
  eapply Forall_impl; [|exact Hb].
  intros b [Hhi | Heq] [H1 | H2]; try lia;
    rewrite <- Heq in Hsp; unfold Strings.IsSpace in Hsp;
    unbool; lia.
Qed.

Lemma flush_ok (cur : gostring) (acc : list gostring) :
  Forall (fun b => ~ ascii_space b) cur ->
  Forall word_ok acc -> Forall word_ok (Strings.flush cur acc).
Proof.
  intros Hc Ha. destruct cur as [|b cur]; [exact Ha|].
  cbn [Strings.flush]. apply Forall_app. split; [exact Ha|].
  constructor; [|constructor]. split; [congruence | exact Hc].
Qed.

Lemma fields_loop_ok (fuel : nat) : forall s cur acc,
  Forall (fun b => ~ ascii_space b) cur ->
  Forall word_ok acc ->
  Forall word_ok (Strings.fields_loop fuel s cur acc).
Proof.
  induction fuel as [|fuel IH]; intros s cur acc Hc Ha; cbn [Strings.fields_loop].
  - now apply flush_ok.
  - destruct s as [|a s]; [now apply flush_ok|].
    pose proof (not_space_chunk (a :: s) ltac:(congruence)) as Hch.
    destruct (DecodeRuneInString (a :: s)) as [r n]. cbn [fst snd] in Hch.
    destruct (Strings.IsSpace r) eqn:E.
    + apply IH; [constructor | now apply flush_ok].
    + apply IH; [|exact Ha]. apply Forall_app. split; [exact Hc | now apply Hch].
Qed.

Lemma keep_nonempty (fs : list gostring) : forall acc,
  Forall (fun w : gostring => w <> []) fs ->
  fold_left (fun words f => if negb (is_empty_string f) then words ++ [f] else words)
            fs acc = acc ++ fs.
Proof.
  induction fs as [|f fs IH]; intros acc Hf; cbn [fold_left].
  - now rewrite app_nil_r.
  - inversion Hf as [|? ? Hne Hrest]; subst.
    destruct f as [|b f]; [congruence|]. cbn [is_empty_string negb].
    rewrite IH by exact Hrest. now rewrite <- app_assoc.
Qed.

(** X2.  The words of [tokenize] are the fields of [strings.Fields],
    none dropped: no word is empty, and no word holds a blank, a tab
    or a line break. *)
Theorem tokenize_words (text : gostring) :
  tokenize text = Strings.Fields text
  /\ Forall (fun w => w <> [] /\ Forall (fun b => ~ ascii_space b) w) (tokenize text).
Proof.
  assert (Hf : Forall word_ok (Strings.Fields text)).
  { unfold Strings.Fields. apply fields_loop_ok; constructor. }
  assert (E : tokenize text = Strings.Fields text).
  { unfold tokenize. rewrite keep_nonempty; [reflexivity|].
    eapply Forall_impl; [|exact Hf]. now intros w [H _]. }
  split; [exact E|]. rewrite E. exact Hf.
Qed.

(* ================================================================== *)
(** * More on the word formatter and the lines of the reader *)

(** X3.  Truncation is idempotent, never displays more than 34
    codepoints, and keeps the first 31 codepoints of the word. *)
Theorem truncateWord_idempotent (word : gostring) :
  truncateWord (truncateWord word) = truncateWord word
  /\ RuneCountInString (truncateWord word) <= 34
  /\ firstn 31 (runes (truncateWord word)) = firstn 31 (runes word).
Proof.
  destruct (Z.le_gt_cases (RuneCountInString word) 32) as [Hs | Hl].
  - rewrite !truncateWord_short by (rewrite ?truncateWord_short; assumption).
    repeat split; lia.
  - assert (Hlen : length (firstn 31 (runes word)) = 31%nat).
    { apply firstn_length_le. unfold RuneCountInString, len in Hl. lia. }
    assert (Hf : firstn 31 (runes (truncateWord word)) = firstn 31 (runes word)).
    { rewrite truncateWord_long_runes by lia.
      rewrite firstn_app, Hlen, Nat.sub_diag, firstn_O, app_nil_r.
      apply firstn_all2. lia. }
    split; [|split; [rewrite truncateWord_long_count; lia | exact Hf]].
    rewrite (truncateWord_long (truncateWord word))
      by (rewrite truncateWord_long_count; lia).
    rewrite Hf. symmetry. apply truncateWord_long. lia.
Qed.

Section Lines.
Context `{Ext : External}.

(** The left context, codepoint by codepoint. *)
Lemma contextBefore_runes (m : model) (word : gostring) :
  exists cb,
    contextBefore m word = Some cb
    /\ runes cb
       = leftContext_runes (firstn (Z.to_nat (currentIdx m)) (words m))
                           (beforeSectionWidth word)
    /\ len (runes cb) = beforeSectionWidth word.
Proof.
  destruct (contextBefore_width m word) as (cb & Hcb & Hlen).
  exists cb. split; [exact Hcb|]. split; [|exact Hlen].
  unfold contextBefore in Hcb. unfold leftContext_runes.
  set (bw := beforeSectionWidth word) in *.
  set (beforeStr := concat _) in *.
  assert (Hbw : 0 < bw <= 30) by apply beforeSectionWidth_range.
  pose proof (len_nonneg (runes beforeStr)) as Hn.
  destruct (len (runes beforeStr) >? bw) eqn:E1; unbool.
  - inversion Hcb; subst cb.
    apply runes_string_of_runes, Forall_skipn, runes_valid.
  - destruct (bw >? 0) eqn:E2; unbool; [|lia].
    rewrite Repeat_Some in Hcb by lia. inversion Hcb; subst cb.
    apply runes_spaces_app.
Qed.

(** X4.  The left context is always drawn and always holds exactly
    [30 - orpOffset] codepoints: the last ones of the prior words,
    each followed by a space, or all of them behind a padding of
    spaces. *)
Theorem left_context_runes (m : model) (word : gostring) :
  exists cb,
    contextBefore m word = Some cb
    /\ runes cb
       = leftContext_runes (firstn (Z.to_nat (currentIdx m)) (words m))
                           (beforeSectionWidth word)
    /\ len (runes cb) = halfWidth - calculateORP (truncateWord word).
Proof.
  destruct (contextBefore_runes m word) as (cb & Hcb & Hr & Hlen).
  exists cb. split; [exact Hcb|]. split; [exact Hr|].
  now rewrite Hlen, beforeSectionWidth_eq.
Qed.

(** X6.  The reader screen reports [len - currentIdx - 1] words left,
    and, as long as that many minutes fit 64 bits (at most
    153722867 words), the time [remaining * 1 minute / wpm]; at the
    last word both are zero. *)
Theorem view_remaining (m : model) (fl wl : list segment) (remaining eta : Z) :
  View m = Some (Reader fl wl remaining eta) ->
  0 < wpm m ->
  remaining = len (words m) - currentIdx m - 1
  /\ 0 <= remaining
  /\ (remaining <= 153722867 -> eta = remaining * 60000000000 / wpm m)
  /\ (currentIdx m = len (words m) - 1 -> remaining = 0 /\ eta = 0).
Proof.
  intros Hv Hw. unfold View in Hv.
  repeat match type of Hv with
  | context [if ?b then _ else _] => destruct b eqn:?; [discriminate|]
  end.
  destruct (wordLine m) as [wl'|] eqn:Ewl; [|discriminate].
  destruct (focusLine m) as [fl'|]; [|discriminate].
  unfold quot64 in Hv.
  destruct (wpm m =? 0) eqn:E0; [discriminate|].
  inversion Hv; subst; clear Hv.
  assert (Hidx : 0 <= currentIdx m < len (words m)).
  { unfold wordLine, currentWord, index in Ewl.
    destruct ((0 <=? currentIdx m) && (currentIdx m <? len (words m))) eqn:Eb;
      [unbool; lia | discriminate]. }
  split; [reflexivity|]. split; [lia|]. split.
  - intros Hr. unfold mul64. change Minute with 60000000000.
    rewrite (wrap64_small (_ * _)) by (unfold MinInt, MaxInt; lia).
    rewrite Z.quot_div_nonneg by lia.
    apply wrap64_small. unfold MinInt, MaxInt.
    assert (0 <= (len (words m) - currentIdx m - 1) * 60000000000 / wpm m
            <= (len (words m) - currentIdx m - 1) * 60000000000); [|lia].
    split; [apply Z.div_pos; lia|].
    apply Z.div_le_upper_bound; nia.
  - intros Hl. split; [lia|].
    replace (len (words m) - currentIdx m - 1) with 0 by lia.
    unfold mul64. cbn [Z.mul]. change (wrap64 0) with 0.
    rewrite Z.quot_0_l by lia. reflexivity.
Qed.

End Lines.

(** The glyphs of the pieces of a word, rune by rune. *)
Lemma wordParts_glyphs (orpIdx : Z) (rs : list rune) : forall i,
  Forall valid_rune rs ->
  map snd (glyphs (wordPartsFrom i orpIdx rs)) = rs
  /\ forall k st r,
       nth_error (glyphs (wordPartsFrom i orpIdx rs)) k = Some (st, r) ->
       st = if i + Z.of_nat k =? orpIdx then highlightStyle else normalStyle.
Proof.
  induction rs as [|r0 rs IH]; intros i Hv.
  - split; [reflexivity|]. intros [|k] st r H; discriminate.
  - inversion Hv as [|? ? Hr Hrs]; subst.
    destruct (IH (i + 1) Hrs) as (IH1 & IH2).
    cbn [wordPartsFrom].
    assert (E : forall st, glyphs ((st, string_of_runes [r0])
                                     :: wordPartsFrom (i + 1) orpIdx rs)
                = (st, r0) :: glyphs (wordPartsFrom (i + 1) orpIdx rs)).
    { intros st. rewrite glyphs_cons, runes_single by exact Hr. reflexivity. }
    split.
    + destruct (i =? orpIdx); rewrite E; cbn [map snd]; now f_equal.
    + intros [|k] st r H.
      * rewrite Z.add_0_r.
        destruct (i =? orpIdx); rewrite E in H; cbn in H; congruence.
      * replace (i + Z.of_nat (S k)) with (i + 1 + Z.of_nat k) by lia.
        apply (IH2 k st r).
        destruct (i =? orpIdx); rewrite E in H; exact H.
Qed.

(** X5.  The rendered word shows the codepoints of the truncated word,
    in order and unchanged, and draws the one at the ORP offset, and
    no other, in the highlight style. *)
Theorem rendered_word_glyphs (word : gostring) :
  map snd (glyphs (renderedWord word)) = runes (truncateWord word)
  /\ forall k st r,
       nth_error (glyphs (renderedWord word)) k = Some (st, r) ->
       st = if Z.of_nat k =? calculateORP (truncateWord word)
            then highlightStyle else normalStyle.
Proof.
  unfold renderedWord.
  destruct (wordParts_glyphs (calculateORP (truncateWord word))
              (runes (truncateWord word)) 0 (runes_valid _)) as (H1 & H2).
  split; [exact H1|]. intros k st r H. now apply (H2 k st r).
Qed.

(* ================================================================== *)
(** * Sessions: what holds from start-up on *)

Section Safety.
Context `{Ext : External}.

Lemma tickCmd_Some (rate : Z) : rate <> 0 -> exists c, tickCmd rate = Some c.
Proof.
  intros H. unfold tickCmd, tickInterval, quot64.
  destruct (rate =? 0) eqn:E; [unbool; lia | eexists; reflexivity].
Qed.

Lemma words_nil_len (ws : list gostring) : ws = [] -> len ws = 0.
Proof. now intros ->. Qed.

Lemma words_cons_len (ws : list gostring) : ws <> [] -> 0 < len ws.
Proof. destruct ws; [congruence|]. unfold len. cbn [length]. lia. Qed.

Lemma Inv_resize (m : model) (msg : Msg) :
  Inv m -> sane msg -> Inv (resize m msg).
Proof.
  intros HI Hs. destruct msg; try exact HI.
  destruct HI as (Hw & Hk & Hp & Hne & Hfit & Hi0 & Hi & Hf).
  cbn [sane] in Hs. destruct Hs as (Hs & _). unfold resize, Inv. fields.
  repeat split; intros; try assumption; try lia; auto;
    try (apply Z.quot_pos; lia);
    try (unfold maxColumns in *; rewrite Z.quot_div_nonneg by lia;
         apply Z.div_le_upper_bound; lia);
    match goal with H : words m <> [] |- _ => specialize (Hi H); lia end.
Qed.

Ltac inv_fin Hi0 Hi Hlen :=
  unfold Inv, fits; fields; unbool;
  repeat split; intros; try assumption; try congruence; try lia; auto;
  try (let A := fresh "A" in let B := fresh "B" in
       destruct Hlen as [[A B] | [A B]];
       [try (destruct (Hi0 A)) | try specialize (Hi A)];
       first [lia | congruence]).

(** One message keeps the invariant; the code of [Update] itself does
    not panic (the calls into the widgets are functions here, so this
    says nothing of a panic inside a widget). *)
Lemma Inv_step (m : model) (msg : Msg) :
  (forall path content, ReadFile path = Some content -> fits (tokenize content)) ->
  Inv m -> sane msg ->
  exists m' c, Update m msg = Some (m', c) /\ Inv m'.
Proof.
  intros Hdocs HI Hs. apply (Inv_resize m msg) in HI; [|exact Hs].
  unfold Update. set (m1 := resize m msg) in *. clearbody m1.
  destruct HI as (Hw & Hk & Hp & Hne & Hfit & Hi0 & Hi & Hf).
  assert (Hlen : words m1 = [] /\ len (words m1) = 0
                 \/ words m1 <> [] /\ 0 < len (words m1)).
  { destruct (words m1) eqn:E; [left | right]; split;
      try reflexivity; congruence. }
  destruct (showPicker m1) eqn:Esp.
  - specialize (Hp eq_refl). unfold updatePicker.
    destruct (isCancel msg).
    { do 2 eexists. split; [reflexivity|]. inv_fin Hi0 Hi Hlen. }
    destruct (picker_Update (filepicker m1) msg) as [fp cmd]. fields.
    destruct (picker_DidSelectFile fp msg) as [path|].
    2:{ do 2 eexists. split; [reflexivity|]. inv_fin Hi0 Hi Hlen. }
    destruct (ReadFile path) as [content|] eqn:Er.
    2:{ do 2 eexists. split; [reflexivity|]. inv_fin Hi0 Hi Hlen. }
    destruct (isBinaryFile content).
    { do 2 eexists. split; [reflexivity|]. inv_fin Hi0 Hi Hlen. }
    destruct (len (tokenize content) >? 0) eqn:El; unbool.
    + do 2 eexists. split; [reflexivity|]. unfold Inv. fields.
      split; [exact Hw|]. split; [exact Hk|]. split; [reflexivity|].
      split; [apply tokenize_nonempty|].
      split; [now apply (Hdocs path)|].
      split; [left; reflexivity|]. split; [intros _; lia | exact Hf].
    + do 2 eexists. split; [reflexivity|]. inv_fin Hi0 Hi Hlen.
  - assert (Hw0 : wpm m1 <> 0) by lia.
    destruct (tickCmd_Some (wpm m1) Hw0) as (ct & Hct).
    assert (Ha25 : add64 (wpm m1) 25 = wpm m1 + 25)
      by (apply add64_small; unfold MinInt, MaxInt; lia).
    assert (Hs25 : sub64 (wpm m1) 25 = wpm m1 - 25)
      by (apply sub64_small; unfold MinInt, MaxInt; lia).
    assert (Hidx : -1 <= currentIdx m1 <= len (words m1)).
    { destruct Hlen as [[E E'] | [E E']];
        [destruct (Hi0 E); lia | specialize (Hi E); lia]. }
    assert (Hfit' := Hfit). unfold fits in Hfit'.
    assert (Ha10 : add64 (currentIdx m1) 10 = currentIdx m1 + 10)
      by (apply add64_small; unfold MinInt, MaxInt in *; lia).
    assert (Hs10 : sub64 (currentIdx m1) 10 = currentIdx m1 - 10)
      by (apply sub64_small; unfold MinInt, MaxInt in *; lia).
    clear Hfit'.
    destruct msg.
    + do 2 eexists. split; [reflexivity|]. inv_fin Hi0 Hi Hlen.
    + unfold updateKey. rewrite Ha25, Hs25, Ha10, Hs10.
      repeat match goal with
      | |- context [if ?b then _ else _] =>
        lazymatch b with
        | true => fail | false => fail
        | _ => destruct b eqn:?; fields
        end
      | |- context [tickCmd ?w] => rewrite Hct
      end;
      do 2 eexists; (split; [reflexivity|]); inv_fin Hi0 Hi Hlen.
    + unfold updateTick.
      repeat match goal with
      | |- context [if ?b then _ else _] =>
        lazymatch b with
        | true => fail | false => fail
        | _ => destruct b eqn:?; fields
        end
      | |- context [tickCmd ?w] => rewrite Hct
      end;
      do 2 eexists; (split; [reflexivity|]); inv_fin Hi0 Hi Hlen.
    + destruct (progress_Update (progress m1) FrameMsg) as [pm cmd].
      do 2 eexists. split; [reflexivity|]. inv_fin Hi0 Hi Hlen.
    + do 2 eexists. split; [reflexivity|]. inv_fin Hi0 Hi Hlen.
Qed.

End Safety.

Lemma index_Some {A} (xs : list A) (i : Z) :
  0 <= i < len xs -> exists x, index xs i = Some x.
Proof.
  intros H. unfold index.
  destruct ((0 <=? i) && (i <? len xs)) eqn:E; [|unbool; destruct E; unbool; lia].
  destruct (nth_error xs (Z.to_nat i)) as [x|] eqn:En; [now exists x|].
  apply nth_error_None in En. unfold len in H. lia.
Qed.

Section SessionFacts.
Context `{Ext : External}.

Lemma mainWords_nonempty (src : Source) (ws : list gostring) :
  mainWords src = Some ws -> Forall (fun w => w <> []) ws.
Proof.
  assert (Ht : forall text, Forall (fun w : gostring => w <> []) (tokenize text)).
  { intros text. apply tokenize_nonempty. }
  destruct src as [|content|text]; cbn [mainWords].
  - intros E. inversion E. constructor.
  - destruct (isBinaryFile content); [discriminate|].
    destruct (len (tokenize content) =? 0); [discriminate|].
    intros E. inversion E. apply Ht.
  - destruct (len (tokenize text) =? 0); [discriminate|].
    intros E. inversion E. apply Ht.
Qed.

Lemma Inv_main (src : Source) (flag : Z) (m0 : model) :
  mainModel src flag = Some m0 -> fits (words m0) -> Inv m0.
Proof.
  unfold mainModel. destruct (mainWords src) as [ws|] eqn:Ews; [|discriminate].
  intros E Hfit. inversion E; subst m0; clear E.
  unfold Inv, initialModel in *. fields.
  pose proof (clampFlag_range flag).
  split; [lia|]. split; [reflexivity|]. split; [reflexivity|].
  split; [now apply (mainWords_nonempty src)|]. split; [exact Hfit|].
  split; [left; reflexivity|]. split; [|unfold maxColumns; lia].
  intros Hne. destruct ws; [congruence|]. unfold len. cbn [length]. lia.
Qed.

Lemma View_Inv (m : model) : Inv m -> exists s, View m = Some s.
Proof.
  intros (Hw & Hk & Hp & Hne & Hfit & Hi0 & Hi & Hf).
  destruct (quit m) eqn:Eq; [unfold View; rewrite Eq; eexists; reflexivity|].
  destruct ((width m =? 0) || (height m =? 0)) eqn:Ewh;
    [unfold View; rewrite Eq, Ewh; eexists; reflexivity|].
  destruct (showPicker m) eqn:Esp;
    [unfold View; rewrite Eq, Ewh, Esp; eexists; reflexivity|].
  destruct (len (words m) =? 0) eqn:El.
  - unfold View. rewrite Eq, Ewh, Esp, El. eexists; reflexivity.
  - assert (Hne' : words m <> []).
    { intros E. rewrite E in El. discriminate. }
    destruct (index_Some (words m) (currentIdx m) (Hi Hne')) as (word & Hword).
    destruct (View_reader m word) as (fl & wl & r & e & Hv & _);
      try assumption; unbool; try lia.
    now exists (Reader fl wl r e).
Qed.

Lemma Inv_preserved (m m' : model) (msg : Msg) (c : Cmd) :
  (forall path content, ReadFile path = Some content -> fits (tokenize content)) ->
  Inv m -> sane msg -> Update m msg = Some (m', c) -> Inv m'.
Proof.
  intros Hdocs HI Hs Hu.
  destruct (Inv_step m msg Hdocs HI Hs) as (m1 & c1 & Hu1 & HI1).
  rewrite Hu in Hu1. inversion Hu1; subst. exact HI1.
Qed.

Lemma run_Inv (msgs : list Msg) : forall m m',
  (forall path content, ReadFile path = Some content -> fits (tokenize content)) ->
  Forall sane msgs -> Inv m -> run m msgs = Some m' -> Inv m'.
Proof.
  induction msgs as [|msg msgs IH]; intros m m' Hdocs Hs HI Hr; cbn [run] in Hr.
  - inversion Hr; subst. exact HI.
  - inversion Hs as [|? ? Hmsg Hrest]; subst.
    destruct (Update m msg) as [[m1 c]|] eqn:Hu; [|discriminate].
    apply (IH m1 m' Hdocs Hrest); [|exact Hr].
    exact (Inv_preserved m m1 msg c Hdocs HI Hmsg Hu).
Qed.

(** X7.  The invariant of a session.  From the model [main] builds,
    as long as the documents fit in memory and the terminal reports
    sizes between 0 and 65535, the model reached by any sequence of
    messages that [Update] has handled has its rate within 50..1000,
    the bindings of the program, playback paused while the picker is
    shown, no empty word, the index inside the words and the focus
    column inside the terminal.  While the reader is in front, [View]
    then computes the marker line, the word line and the figures of
    the status line, and [Update] handles every key, tick and resize,
    without a panic of their own code.  (A panic inside the file
    picker is outside this statement: the messages that the picker
    receives are covered only as far as [Update] has handled
    them.) *)
Theorem session_invariant (src : Source) (flag : Z) (m0 m : model)
        (msgs : list Msg) :
  mainModel src flag = Some m0 ->
  fits (words m0) ->
  (forall path content, ReadFile path = Some content -> fits (tokenize content)) ->
  Forall sane msgs ->
  run m0 msgs = Some m ->
  Inv m
  /\ (showPicker m = false ->
      (exists s, View m = Some s)
      /\ (forall msg, sane msg -> msg <> FrameMsg ->
          exists m' c, Update m msg = Some (m', c) /\ Inv m')).
Proof.
  intros Hm Hfit Hdocs Hs Hr.
  pose proof (Inv_main src flag m0 Hm Hfit) as HI0.
  pose proof (run_Inv msgs m0 m Hdocs Hs HI0 Hr) as HI.
  split; [exact HI|]. intros _. split; [now apply View_Inv|].
  intros msg Hmsg _. now apply Inv_step.
Qed.

Lemma run_wpm (msgs : list Msg) : forall m m',
  run m msgs = Some m' -> 50 <= wpm m <= 1000 -> 50 <= wpm m' <= 1000.
Proof.
  induction msgs as [|msg msgs IH]; intros m m' Hr Hw; cbn [run] in Hr.
  - inversion Hr; subst. exact Hw.
  - destruct (Update m msg) as [[m1 c]|] eqn:Hu; [|discriminate].
    apply (IH m1 m' Hr). eapply wpm_range_preserved; eauto.
Qed.

(** X8.  Whatever the flag, the words, the key bindings' matches and
    the messages, the rate of a model built by [initialModel] from
    the clamped flag stays within 50..1000. *)
Theorem rate_stays_in_range (ws : list gostring) (flag : Z)
        (msgs : list Msg) (m' : model) :
  run (initialModel ws (clampFlag flag)) msgs = Some m' ->
  50 <= wpm m' <= 1000.
Proof.
  intros Hr. apply (run_wpm msgs _ _ Hr). apply clampFlag_range.
Qed.

(** The range that C8 takes for the rate is met in every state the
    program reaches, so the speed keys clamp as the specification
    says throughout a session. *)
Lemma setSpeed_clamps_reachable (ws : list gostring) (flag : Z)
      (msgs : list Msg) (m : model) :
  run (initialModel ws (clampFlag flag)) msgs = Some m ->
  reading m ->
  setSpeed_clamps m.
Proof.
  intros Hr Hrd.
  assert (Hw : 50 <= wpm m <= 1000)
    by (apply (run_wpm msgs _ _ Hr); apply clampFlag_range).
  assert (Ha : add64 (wpm m) 25 = wpm m + 25)
    by (apply add64_small; unfold MinInt, MaxInt; lia).
  assert (Hs : sub64 (wpm m) 25 = wpm m - 25)
    by (apply sub64_small; unfold MinInt, MaxInt; lia).
  unfold setSpeed_clamps, clamp. split; intros k Hin.
  - destruct (faster_key m k Hrd Hin) as (m' & Hu & Hv).
    exists m'. split; [exact Hu | lia].
  - destruct (slower_key m k Hrd Hin) as (m' & Hu & Hv).
    exists m'. split; [exact Hu | lia].
Qed.

End SessionFacts.

(* ================================================================== *)
(** * How the commands compose *)

Section Playback.
Context `{Ext : External}.

Lemma set_currentIdx_same (m : model) (i : Z) :
  i = currentIdx m -> set_currentIdx i m = m.
Proof. intros ->. now destruct m. Qed.


Lemma set_wpm_same (m : model) (w : Z) :
  w = wpm m -> set_wpm w m = m.
Proof. intros ->. now destruct m. Qed.

Lemma tick_advances (m : model) :
  showPicker m = false -> paused m = false -> wpm m <> 0 ->
  currentIdx m < len (words m) - 1 ->
  exists c, Update m tickMsg = Some (set_currentIdx (currentIdx m + 1) m, c).
Proof.
  intros Hp Hpa Hw Hi. rewrite Update_tick by exact Hp. unfold updateTick.
  rewrite Hpa. cbn [negb andb].
  destruct (currentIdx m <? len (words m) - 1) eqn:E; [|unbool; lia].
  fields. destruct (tickCmd_Some (wpm m) Hw) as (c & ->). now exists c.
Qed.

Lemma ticks_advance (n : nat) : forall m,
  showPicker m = false -> paused m = false -> wpm m <> 0 ->
  currentIdx m + Z.of_nat n <= len (words m) - 1 ->
  run m (repeat tickMsg n) = Some (set_currentIdx (currentIdx m + Z.of_nat n) m).
Proof.
  induction n as [|n IH]; intros m Hp Hpa Hw Hi.
  - cbn [repeat run]. f_equal. symmetry. apply set_currentIdx_same. lia.
  - cbn [repeat run].
    destruct (tick_advances m Hp Hpa Hw ltac:(lia)) as (c & ->).
    rewrite IH; fields; try assumption; try lia.
    f_equal. unfold set_currentIdx. fields. f_equal. lia.
Qed.

Lemma run_app (l1 l2 : list Msg) : forall m m1,
  run m l1 = Some m1 -> run m (l1 ++ l2) = run m1 l2.
Proof.
  induction l1 as [|msg l1 IH]; intros m m1 H; cbn [run app] in *.
  - now inversion H.
  - destruct (Update m msg) as [[m' c]|]; [now apply IH | discriminate].
Qed.

(** X9.  Playing runs to the end and stops there: from a playing
    model [n] words before the last, [n] ticks lead to the last word,
    still playing, and one more tick pauses on it. *)
Theorem play_to_the_end (m : model) (n : nat) :
  showPicker m = false -> paused m = false -> wpm m <> 0 ->
  currentIdx m + Z.of_nat n = len (words m) - 1 ->
  run m (repeat tickMsg n) = Some (set_currentIdx (len (words m) - 1) m)
  /\ run m (repeat tickMsg n ++ [tickMsg])
     = Some (set_paused true (set_currentIdx (len (words m) - 1) m)).
Proof.
  intros Hp Hpa Hw Hn.
  assert (H1 : run m (repeat tickMsg n)
               = Some (set_currentIdx (len (words m) - 1) m)).
  { rewrite ticks_advance by (try assumption; lia). now rewrite Hn. }
  split; [exact H1|].
  rewrite (run_app _ _ _ _ H1). cbn [run].
  rewrite Update_tick by exact Hp. unfold updateTick. fields.
  rewrite Hpa. cbn [negb andb]. rewrite Z.ltb_irrefl.
  replace (len (words m) - 1 >=? len (words m) - 1) with true
    by (symmetry; rewrite Z.geb_leb; apply Z.leb_refl).
  fields. reflexivity.
Qed.


(** X11.  The play/pause key flips the pause flag and nothing else;
    it schedules a tick exactly when it starts playing, and pressed
    twice it gives the model back. *)
Theorem play_pause_toggles (m : model) (k : string) :
  reading m -> In k (PlayPause Globals.keys) -> wpm m <> 0 ->
  exists c,
    tickCmd (wpm m) = Some c
    /\ Update m (KeyMsg k)
       = Some (set_paused (negb (paused m)) m, if paused m then c else CmdNil)
    /\ run m [KeyMsg k; KeyMsg k] = Some m.
Proof.
  intros [Hp Hk] Hin Hw.
  destruct (tickCmd_Some (wpm m) Hw) as (c & Hc). exists c.
  split; [exact Hc|].
  cbn [In Globals.keys PlayPause] in Hin. destruct Hin as [<- | []].
  assert (H1 : forall m0, showPicker m0 = false -> keys m0 = Globals.keys ->
                wpm m0 = wpm m ->
                Update m0 (KeyMsg " ")
                = Some (set_paused (negb (paused m0)) m0,
                        if paused m0 then c else CmdNil)).
  { intros m0 Hp0 Hk0 Hw0. rewrite Update_key by exact Hp0.
    unfold updateKey. rewrite Hk0. eval_matches. fields.
    destruct (paused m0); cbn [negb]; [rewrite Hw0, Hc|]; reflexivity. }
  split; [now apply H1|].
  cbn [run]. rewrite H1 by auto. rewrite H1 by (fields; auto).
  fields. f_equal. unfold set_paused. fields.
  rewrite negb_involutive. now destruct m.
Qed.

End Playback.

Section Keys.
Context `{Ext : External}.

(** The effect of the keys that move the index, whatever the index. *)
Lemma key_next (m : model) (k : string) :
  reading m -> In k (Next Globals.keys) ->
  Update m (KeyMsg k)
  = Some (if currentIdx m <? len (words m) - 1
          then set_currentIdx (currentIdx m + 1) m else m, CmdNil).
Proof.
  intros [Hp Hk] Hin. rewrite Update_key by exact Hp.
  unfold updateKey. rewrite Hk. cbn [In Globals.keys Next] in Hin.
  repeat (destruct Hin as [<- | Hin]); try contradiction;
    eval_matches; reflexivity.
Qed.

Lemma key_prev (m : model) (k : string) :
  reading m -> In k (Prev Globals.keys) ->
  Update m (KeyMsg k)
  = Some (if currentIdx m >? 0
          then set_currentIdx (currentIdx m - 1) m else m, CmdNil).
Proof.
  intros [Hp Hk] Hin. rewrite Update_key by exact Hp.
  unfold updateKey. rewrite Hk. cbn [In Globals.keys Prev] in Hin.
  repeat (destruct Hin as [<- | Hin]); try contradiction;
    eval_matches; reflexivity.
Qed.

Lemma key_jump_fwd (m : model) (k : string) :
  reading m -> In k (JumpFwd Globals.keys) ->
  Update m (KeyMsg k)
  = Some (if add64 (currentIdx m) 10 >=? len (words m)
          then set_currentIdx (len (words m) - 1) m
          else set_currentIdx (add64 (currentIdx m) 10) m, CmdNil).
Proof.
  intros [Hp Hk] Hin. rewrite Update_key by exact Hp.
  unfold updateKey. rewrite Hk. cbn [In Globals.keys JumpFwd] in Hin.
  destruct Hin as [<- | []]. eval_matches. fields.
  destruct (add64 (currentIdx m) 10 >=? len (words m)); reflexivity.
Qed.

Lemma key_jump_back (m : model) (k : string) :
  reading m -> In k (JumpBack Globals.keys) ->
  Update m (KeyMsg k)
  = Some (if sub64 (currentIdx m) 10 <? 0
          then set_currentIdx 0 m
          else set_currentIdx (sub64 (currentIdx m) 10) m, CmdNil).
Proof.
  intros [Hp Hk] Hin. rewrite Update_key by exact Hp.
  unfold updateKey. rewrite Hk. cbn [In Globals.keys JumpBack] in Hin.
  destruct Hin as [<- | []]. eval_matches. fields.
  destruct (sub64 (currentIdx m) 10 <? 0); reflexivity.
Qed.

Lemma reading_set_currentIdx (m : model) (i : Z) :
  reading m -> reading (set_currentIdx i m).
Proof. intros [? ?]. split; assumption. Qed.

Lemma reading_set_wpm (m : model) (w : Z) :
  reading m -> reading (set_wpm w m).
Proof. intros [? ?]. split; assumption. Qed.

(** X12.  One word forward and one word back cancel out anywhere
    before the last word, in either order from the two words
    concerned; at the first word the step back, and at the last word
    the step forward, change nothing. *)
Theorem step_round_trip (m : model) (kn kp : string) :
  reading m ->
  In kn (Next Globals.keys) -> In kp (Prev Globals.keys) ->
  0 <= currentIdx m < len (words m) - 1 ->
  run m [KeyMsg kn; KeyMsg kp] = Some m
  /\ run (set_currentIdx (currentIdx m + 1) m) [KeyMsg kp; KeyMsg kn]
     = Some (set_currentIdx (currentIdx m + 1) m)
  /\ Update (set_currentIdx 0 m) (KeyMsg kp) = Some (set_currentIdx 0 m, CmdNil)
  /\ Update (set_currentIdx (len (words m) - 1) m) (KeyMsg kn)
     = Some (set_currentIdx (len (words m) - 1) m, CmdNil).
Proof.
  intros Hr Hn Hp Hi.
  assert (Hfwd : Update m (KeyMsg kn)
                 = Some (set_currentIdx (currentIdx m + 1) m, CmdNil)).
  { rewrite key_next by assumption.
    destruct (currentIdx m <? len (words m) - 1) eqn:E; [reflexivity | unbool; lia]. }
  assert (Hback : Update (set_currentIdx (currentIdx m + 1) m) (KeyMsg kp)
                  = Some (m, CmdNil)).
  { rewrite key_prev by (try apply reading_set_currentIdx; assumption). fields.
    destruct (currentIdx m + 1 >? 0) eqn:E; [|unbool; lia].
    f_equal. f_equal. unfold set_currentIdx. fields.
    replace (currentIdx m + 1 - 1) with (currentIdx m) by lia. now destruct m. }
  split; [cbn [run]; now rewrite Hfwd, Hback|].
  split; [cbn [run]; now rewrite Hback, Hfwd|].
  split.
  - rewrite key_prev by (try apply reading_set_currentIdx; assumption). fields.
    reflexivity.
  - rewrite key_next by (try apply reading_set_currentIdx; assumption). fields.
    now rewrite Z.ltb_irrefl.
Qed.

(** X13.  Ten words forward and ten words back cancel out wherever
    ten words follow; with fewer than ten words behind, the jump back
    stops at the first word, and with fewer than ten ahead the jump
    forward stops at the last. *)
Theorem jump_round_trip (m : model) (kf kb : string) :
  reading m ->
  In kf (JumpFwd Globals.keys) -> In kb (JumpBack Globals.keys) ->
  fits (words m) ->
  0 <= currentIdx m < len (words m) ->
  (currentIdx m + 10 < len (words m) -> run m [KeyMsg kf; KeyMsg kb] = Some m)
  /\ (currentIdx m < 10 ->
      Update m (KeyMsg kb) = Some (set_currentIdx 0 m, CmdNil))
  /\ (len (words m) <= currentIdx m + 10 ->
      Update m (KeyMsg kf) = Some (set_currentIdx (len (words m) - 1) m, CmdNil)).
Proof.
  intros Hr Hf Hb Hfit Hi. unfold fits in Hfit.
  assert (Ha : add64 (currentIdx m) 10 = currentIdx m + 10)
    by (apply add64_small; unfold MinInt, MaxInt in *; lia).
  assert (Hs : sub64 (currentIdx m) 10 = currentIdx m - 10)
    by (apply sub64_small; unfold MinInt, MaxInt in *; lia).
  split; [|split].
  - intros Hroom. cbn [run]. rewrite key_jump_fwd by assumption. rewrite Ha.
    destruct (currentIdx m + 10 >=? len (words m)) eqn:E; [unbool; lia|].
    rewrite key_jump_back by (try apply reading_set_currentIdx; assumption).
    fields.
    assert (Hs' : sub64 (currentIdx m + 10) 10 = currentIdx m)
      by (rewrite sub64_small; unfold MinInt, MaxInt in *; lia).
    rewrite Hs'. destruct (currentIdx m <? 0) eqn:E2; [unbool; lia|].
    f_equal. unfold set_currentIdx. fields. now destruct m.
  - intros Hlow. rewrite key_jump_back by assumption. rewrite Hs.
    destruct (currentIdx m - 10 <? 0) eqn:E; [reflexivity | unbool; lia].
  - intros Hhigh. rewrite key_jump_fwd by assumption. rewrite Ha.
    destruct (currentIdx m + 10 >=? len (words m)) eqn:E; [reflexivity | unbool; lia].
Qed.

Lemma key_faster (m : model) (k : string) :
  reading m -> In k (Faster Globals.keys) ->
  Update m (KeyMsg k)
  = Some (if add64 (wpm m) 25 >? 1000 then set_wpm 1000 m
          else set_wpm (add64 (wpm m) 25) m, CmdNil).
Proof.
  intros [Hp Hk] Hin. rewrite Update_key by exact Hp.
  unfold updateKey. rewrite Hk. cbn [In Globals.keys Faster] in Hin.
  repeat (destruct Hin as [<- | Hin]); try contradiction;
    eval_matches; fields;
    destruct (add64 (wpm m) 25 >? 1000); reflexivity.
Qed.

Lemma key_slower (m : model) (k : string) :
  reading m -> In k (Slower Globals.keys) ->
  Update m (KeyMsg k)
  = Some (if sub64 (wpm m) 25 <? 50 then set_wpm 50 m
          else set_wpm (sub64 (wpm m) 25) m, CmdNil).
Proof.
  intros [Hp Hk] Hin. rewrite Update_key by exact Hp.
  unfold updateKey. rewrite Hk. cbn [In Globals.keys Slower] in Hin.
  repeat (destruct Hin as [<- | Hin]); try contradiction;
    eval_matches; fields;
    destruct (sub64 (wpm m) 25 <? 50); reflexivity.
Qed.

(** X14.  Faster then slower, and slower then faster, give the rate
    back as long as neither step is clamped (75..975); from 1000 the
    pair faster, slower ends at 975, and from 50 the pair slower,
    faster ends at 75. *)
Theorem speed_round_trip (m : model) (kf ks : string) :
  reading m ->
  In kf (Faster Globals.keys) -> In ks (Slower Globals.keys) ->
  50 <= wpm m <= 1000 ->
  (wpm m <= 975 -> run m [KeyMsg kf; KeyMsg ks] = Some m)
  /\ (75 <= wpm m -> run m [KeyMsg ks; KeyMsg kf] = Some m)
  /\ (wpm m = 1000 -> run m [KeyMsg kf; KeyMsg ks] = Some (set_wpm 975 m))
  /\ (wpm m = 50 -> run m [KeyMsg ks; KeyMsg kf] = Some (set_wpm 75 m)).
Proof.
  intros Hr Hf Hs Hw.
  assert (Hadd : forall w, 25 <= w <= 1000 -> add64 w 25 = w + 25)
    by (intros; apply add64_small; unfold MinInt, MaxInt; lia).
  assert (Hsub : forall w, 50 <= w <= 1025 -> sub64 w 25 = w - 25)
    by (intros; apply sub64_small; unfold MinInt, MaxInt; lia).
  assert (Hup : Update m (KeyMsg kf)
                = Some (set_wpm (Z.min (wpm m + 25) 1000) m, CmdNil)).
  { rewrite key_faster by assumption. rewrite Hadd by lia.
    destruct (wpm m + 25 >? 1000) eqn:E; unbool; do 3 f_equal; lia. }
  assert (Hdown : Update m (KeyMsg ks)
                  = Some (set_wpm (Z.max (wpm m - 25) 50) m, CmdNil)).
  { rewrite key_slower by assumption. rewrite Hsub by lia.
    destruct (wpm m - 25 <? 50) eqn:E; unbool; do 3 f_equal; lia. }
  assert (Hdown' : forall w, 50 <= w <= 1000 ->
            Update (set_wpm w m) (KeyMsg ks)
            = Some (set_wpm (Z.max (w - 25) 50) m, CmdNil)).
  { intros w Hwr. rewrite key_slower by (try apply reading_set_wpm; assumption).
    fields. rewrite Hsub by lia.
    destruct (w - 25 <? 50) eqn:E; unbool; unfold set_wpm; fields;
      do 3 f_equal; lia. }
  assert (Hup' : forall w, 50 <= w <= 1000 ->
            Update (set_wpm w m) (KeyMsg kf)
            = Some (set_wpm (Z.min (w + 25) 1000) m, CmdNil)).
  { intros w Hwr. rewrite key_faster by (try apply reading_set_wpm; assumption).
    fields. rewrite Hadd by lia.
    destruct (w + 25 >? 1000) eqn:E; unbool; unfold set_wpm; fields;
      do 3 f_equal; lia. }
  repeat split; intros Hc; cbn [run];
    rewrite ?Hup, ?Hdown; rewrite ?Hdown', ?Hup' by lia;
    f_equal; try (apply set_wpm_same; lia); f_equal; lia.
Qed.

End Keys.

(* ================================================================== *)
(** * The picker, quitting, resizing and start-up *)

Section PickerAndScreen.
Context `{Ext : External}.

Lemma same_playback_resize (m : model) (msg : Msg) :
  same_playback m (resize m msg).
Proof. destruct msg; repeat split. Qed.

(** X15.  While the picker is shown the reader's keys do not reach
    the playback: the keys esc and q close the picker and nothing
    else, and any other message that selects no file leaves the
    words, the index, the rate and the pause flag alone and the
    picker open, returning the picker's own command. *)
Theorem picker_keeps_playback (m : model) (msg : Msg) :
  showPicker m = true ->
  (isCancel msg = true ->
     Update m msg = Some (set_showPicker false m, CmdNil))
  /\ (isCancel msg = false ->
      picker_DidSelectFile
        (fst (picker_Update (filepicker (resize m msg)) msg)) msg = None ->
      exists m',
        Update m msg
        = Some (m', snd (picker_Update (filepicker (resize m msg)) msg))
        /\ same_playback m m' /\ showPicker m' = true
        /\ fileError m' = fileError m).
Proof.
  intros Hp. split.
  - intros Hc. destruct msg; try discriminate.
    unfold Update, resize. rewrite Hp. unfold updatePicker. now rewrite Hc.
  - intros Hc Hsel.
    destruct (resize_words m msg) as (Hw & Hi & Hpa & Hsp & Hwpm & _ & Hfe).
    unfold Update. rewrite Hsp, Hp. unfold updatePicker. rewrite Hc.
    destruct (picker_Update (filepicker (resize m msg)) msg) as [fp cmd].
    cbn [fst snd] in *. fields. rewrite Hsel.
    eexists. split; [reflexivity|]. unfold same_playback. fields.
    repeat split; congruence.
Qed.

(** X16.  A selected file that cannot be read, or that is binary,
    loads nothing: the picker closes, the words, the index, the rate
    and the pause flag stay, and the error is recorded; with no
    document loaded the screen then shows that error. *)
Theorem load_failure_keeps_document (m : model) (msg : Msg) (path : gostring) :
  showPicker m = true ->
  isCancel msg = false ->
  picker_DidSelectFile
    (fst (picker_Update (filepicker (resize m msg)) msg)) msg = Some path ->
  (ReadFile path = None
   \/ exists content, ReadFile path = Some content /\ isBinaryFile content = true) ->
  exists m',
    Update m msg = Some (m', CmdNil)
    /\ same_playback m m' /\ showPicker m' = false
    /\ fileError m'
       = match ReadFile path with
         | None => lit "Error reading file"
         | Some _ => lit "Cannot open binary file"
         end
    /\ (words m = [] -> quit m' = false -> width m' <> 0 -> height m' <> 0 ->
        View m' = Some (Message
          (fileError m' ++
           lit ". Press 'o' to open a text file or provide a URL as an argument."))).
Proof.
  intros Hp Hc Hsel Hfail.
  destruct (resize_words m msg) as (Hw & Hi & Hpa & Hsp & Hwpm & _ & _).
  unfold Update. rewrite Hsp, Hp. unfold updatePicker. rewrite Hc.
  destruct (picker_Update (filepicker (resize m msg)) msg) as [fp cmd].
  cbn [fst] in Hsel. fields. rewrite Hsel.
  assert (Hview : forall m' : model,
            showPicker m' = false -> words m' = words m ->
            fileError m' <> [] ->
            words m = [] -> quit m' = false -> width m' <> 0 -> height m' <> 0 ->
            View m' = Some (Message
              (fileError m' ++
               lit ". Press 'o' to open a text file or provide a URL as an argument."))).
  { intros m' Hsp' Hw' Hfe Hwe Hq Hwd Hht.
    destruct (View_empty m' ltac:(congruence)) as (s & Hv & _ & Hmsg).
    rewrite Hv, (Hmsg Hq Hwd Hht Hsp'). unfold noContent.
    destruct (fileError m'); [congruence | reflexivity]. }
  destruct Hfail as [Hnone | (content & Hsome & Hbin)].
  - rewrite Hnone. eexists. split; [reflexivity|].
    unfold same_playback. fields. repeat split; try congruence.
    intros Hwe Hq Hwd Hht.
    apply Hview; fields; try congruence; discriminate.
  - rewrite Hsome, Hbin. eexists. split; [reflexivity|].
    unfold same_playback. fields. repeat split; try congruence.
    intros Hwe Hq Hwd Hht.
    apply Hview; fields; try congruence; discriminate.
Qed.


(** X18.  In the reader the keys q, esc and ctrl+c quit: the model is
    marked, [tea.Quit] is returned and [View] draws nothing from then
    on.  With the picker open q and esc only close the picker. *)
Theorem quit_keys (m : model) (k : string) :
  keys m = Globals.keys ->
  In k (KQuit Globals.keys) ->
  (showPicker m = false ->
     Update m (KeyMsg k) = Some (set_quit true m, Quit)
     /\ View (set_quit true m) = Some (Message []))
  /\ (showPicker m = true -> k <> "ctrl+c"%string ->
      Update m (KeyMsg k) = Some (set_showPicker false m, CmdNil)
      /\ quit (set_showPicker false m) = quit m).
Proof.
  intros Hk Hin. cbn [In Globals.keys KQuit] in Hin. split.
  - intros Hp. rewrite Update_key by exact Hp. unfold updateKey. rewrite Hk.
    repeat (destruct Hin as [<- | Hin]); try contradiction;
      eval_matches; split; reflexivity.
  - intros Hp Hne. unfold Update, resize. rewrite Hp. unfold updatePicker.
    repeat (destruct Hin as [<- | Hin]); try contradiction;
      try congruence; split; reflexivity.
Qed.

(** X19.  A resize records the size and puts the focus column at
    half the width, rounded down, in the reader and leaves the
    playback alone; the focus column splits the line in two halves
    that differ by at most one column. *)
Theorem resize_sets_geometry (m : model) (Width Height : Z) :
  showPicker m = false ->
  exists m',
    Update m (WindowSizeMsg Width Height) = Some (m', CmdNil)
    /\ width m' = Width /\ height m' = Height
    /\ focusCol m' = Z.quot Width 2
    /\ same_playback m m' /\ showPicker m' = false
    /\ (0 <= Width -> 2 * focusCol m' <= Width <= 2 * focusCol m' + 1).
Proof.
  intros Hp. unfold Update, resize. fields. rewrite Hp.
  eexists. split; [reflexivity|]. unfold same_playback. fields.
  repeat split; try reflexivity; try assumption;
    rewrite Z.quot_div_nonneg by lia;
    Z.to_euclidean_division_equations; lia.
Qed.

(** X20.  Only a load changes the document: in the reader no
    message, whatever the key bindings, changes the words, the name
    of the selected file or the recorded error. *)
Theorem reader_keeps_document (m m' : model) (msg : Msg) (c : Cmd) :
  showPicker m = false ->
  Update m msg = Some (m', c) ->
  words m' = words m
  /\ selectedFile m' = selectedFile m
  /\ fileError m' = fileError m.
Proof.
  intros Hp Hu.
  assert (Hr : words (resize m msg) = words m
               /\ selectedFile (resize m msg) = selectedFile m
               /\ fileError (resize m msg) = fileError m
               /\ showPicker (resize m msg) = false)
    by (destruct msg; repeat split; assumption).
  destruct Hr as (Hw & Hsf & Hfe & Hsp).
  unfold Update in Hu. rewrite Hsp in Hu.
  rewrite <- Hw, <- Hsf, <- Hfe.
  set (m1 := resize m msg) in *. clearbody m1.
  destruct msg; try solve [inversion Hu; subst; repeat split].
  - unfold updateKey in Hu.
    repeat match type of Hu with
    | context [if ?b then _ else _] => destruct b eqn:?; fields
    | context [tickCmd ?w] => destruct (tickCmd w)
    end;
    inversion Hu; subst; fields; repeat split.
  - unfold updateTick in Hu.
    repeat match type of Hu with
    | context [if ?b then _ else _] => destruct b eqn:?; fields
    | context [tickCmd ?w] => destruct (tickCmd w)
    end;
    inversion Hu; subst; fields; repeat split.
  - destruct (progress_Update (progress m1) FrameMsg).
    inversion Hu; subst; repeat split.
Qed.

(** X21.  [main] starts the reader paused at the first word with the
    clamped rate; it shows the picker exactly when it was given
    nothing to read, and otherwise it has at least one word: binary
    content and content without a word make it exit instead. *)
Theorem main_start (src : Source) (flag : Z) (m0 : model) :
  mainModel src flag = Some m0 ->
  paused m0 = true /\ currentIdx m0 = 0 /\ quit m0 = false
  /\ wpm m0 = clamp flag 50 1000
  /\ (showPicker m0 = true <-> src = NoSource)
  /\ (src <> NoSource -> words m0 <> [])
  /\ (forall content, src = Bytes content ->
      isBinaryFile content = false /\ words m0 = tokenize content).
Proof.
  unfold mainModel. destruct (mainWords src) as [ws|] eqn:Ews; [|discriminate].
  intros E. inversion E; subst m0; clear E. unfold initialModel. fields.
  assert (Hclamp : clampFlag flag = clamp flag 50 1000).
  { unfold clampFlag, clamp. repeat break_if; unbool; lia. }
  assert (Hlen : forall l : list gostring, (len l =? 0) = false -> l <> []).
  { intros l H ->. discriminate. }
  split; [reflexivity|]. split; [reflexivity|]. split; [reflexivity|].
  split; [exact Hclamp|].
  destruct src as [|content|text]; cbn [mainWords] in Ews.
  - inversion Ews; subst. split; [split; reflexivity|].
    split; [congruence | intros c Hc; discriminate].
  - destruct (isBinaryFile content) eqn:Eb; [discriminate|].
    destruct (len (tokenize content) =? 0) eqn:El; [discriminate|].
    inversion Ews; subst. rewrite El.
    split; [split; discriminate|].
    split; [intros _; now apply Hlen|].
    intros c Hc. inversion Hc; subst. split; [assumption | reflexivity].
  - destruct (len (tokenize text) =? 0) eqn:El; [discriminate|].
    inversion Ews; subst. rewrite El.
    split; [split; discriminate|].
    split; [intros _; now apply Hlen | intros c Hc; discriminate].
Qed.

(** X22.  The focus marker line is drawn for every focus column of
    a terminal, 0 to 65535: that many spaces, then the marker, which
    so stands at the focus column.  A negative focus column makes
    [strings.Repeat] panic, and so does one beyond the largest
    allocation; [View] of a reader in front of words panics with
    it. *)
Theorem focus_marker_column (m : model) :
  (0 <= focusCol m <= maxColumns ->
     exists line,
       focusLine m = Some line
       /\ glyphs line
          = repeat (noStyle, 32) (Z.to_nat (focusCol m)) ++ [(dimStyle, 9474)]
       /\ displayWidth line = focusCol m + 1)
  /\ (focusCol m < 0 \/ maxAlloc < focusCol m ->
      focusLine m = None /\
      (quit m = false -> width m <> 0 -> height m <> 0 ->
       showPicker m = false -> words m <> [] -> View m = None)).
Proof.
  split.
  - intros Hf. destruct (focusLine_marker m Hf) as (line & Hl & Hg).
    exists line. split; [exact Hl|]. split; [exact Hg|].
    unfold displayWidth. rewrite Hg, len_app, len_repeat.
    unfold len. cbn [length]. lia.
  - intros Hf.
    assert (Hnone : focusLine m = None).
    { unfold focusLine.
      destruct Hf as [Hf | Hf];
        [rewrite Repeat_negative | rewrite Repeat_too_long];
        solve [reflexivity | exact Hf]. }
    split; [exact Hnone|].
    intros Hq Hw Hh Hp Hne. unfold View. rewrite Hq, Hp, Hnone.
    destruct ((width m =? 0) || (height m =? 0)) eqn:E;
      [unbool; destruct E; unbool; lia|].
    destruct (len (words m) =? 0) eqn:El.
    { unbool. apply len_zero_iff in El. congruence. }
    destruct (wordLine m); reflexivity.
Qed.

(** X23.  On text whose following words are ASCII the right context
    holds exactly its budget of codepoints: the first ones of the
    following words, each preceded by a space, padded with spaces on
    the right when they run out. *)
Theorem right_context_on_ascii (m : model) (word : gostring) :
  currentWord m = Some word ->
  Forall ascii_only (skipn (Z.to_nat (currentIdx m + 1)) (words m)) ->
  exists ca,
    contextAfter m word = Some ca
    /\ runes ca
       = rightContext_spec (skipn (Z.to_nat (currentIdx m + 1)) (words m))
                           (afterSectionWidth word)
    /\ len (runes ca) = afterSectionWidth word.
Proof.
  intros Hw Ha.
  destruct (right_context_ascii m word Hw Ha) as (ca & Hca & Hr).
  destruct (contextAfter_width m word) as (ca' & Hca' & Hlen).
  exists ca. split; [exact Hca|]. split; [exact Hr|]. congruence.
Qed.

End PickerAndScreen.

(* ================================================================== *)
(** * The word line on a terminal *)

Lemma single_cell_bytes (s : gostring) :
  Forall (fun b => 32 <= byteZ b <= 126) s ->
  Forall single_cell (runes s).
Proof.
  intros H.
  rewrite runes_ascii_only
    by (eapply Forall_impl; [|exact H]; cbv beta; intros; lia).
  induction H as [|b s Hb _ IH]; cbn [map]; constructor; assumption.
Qed.

Lemma printable_bytes (w : gostring) :
  printable w -> Forall (fun b => 32 <= byteZ b <= 126) w.
Proof. apply Forall_impl. intros; lia. Qed.

Lemma blank_byte : 32 <= byteZ " "%char <= 126.
Proof. cbv. split; discriminate. Qed.

Lemma printable_prior (ws : list gostring) :
  Forall printable ws ->
  Forall (fun b => 32 <= byteZ b <= 126) (concat (map (fun w => w ++ lit " ") ws)).
Proof.
  induction 1 as [|w ws Hw _ IH]; [constructor|].
  cbn [map concat]. apply Forall_app. split; [|exact IH].
  apply Forall_app. split; [now apply printable_bytes|].
  constructor; [exact blank_byte | constructor].
Qed.

Lemma printable_following (ws : list gostring) :
  Forall printable ws ->
  Forall (fun b => 32 <= byteZ b <= 126) (concat (map (fun w => lit " " ++ w) ws)).
Proof.
  induction 1 as [|w ws Hw _ IH]; [constructor|].
  cbn [map concat]. apply Forall_app. split; [|exact IH].
  apply Forall_app. split; [|now apply printable_bytes].
  constructor; [exact blank_byte | constructor].
Qed.

Lemma single_cell_blanks (n : nat) : Forall single_cell (repeat 32 n).
Proof. induction n; cbn [repeat]; constructor; [unfold single_cell; lia | assumption]. Qed.

Lemma printable_ascii_only (w : gostring) : printable w -> ascii_only w.
Proof. apply Forall_impl. intros; lia. Qed.

Lemma single_cell_truncateWord (word : gostring) :
  printable word -> Forall single_cell (runes (truncateWord word)).
Proof.
  intros Hp.
  assert (Hr : Forall single_cell (runes word))
    by now apply single_cell_bytes, printable_bytes.
  destruct (RuneCountInString word <=? 32) eqn:E; unbool.
  - now rewrite truncateWord_short.
  - rewrite truncateWord_long_runes by lia.
    apply Forall_app. split; [now apply Forall_firstn|].
    repeat constructor; unfold single_cell; lia.
Qed.

(** Where every glyph takes one cell, the cells are the columns. *)
Lemma cellsFrom_single (gs : list (Style * rune)) : forall cell,
  Forall (fun g => single_cell (snd g)) gs ->
  cellsFrom cell gs = Some (highlightsFrom cell gs, cell + len gs).
Proof.
  induction gs as [|[st r] gs IH]; intros cell Hs.
  - cbn [cellsFrom highlightsFrom]. unfold len. cbn [length].
    now rewrite Z.add_0_r.
  - inversion Hs as [|? ? Hr Hrest]; subst. cbn [snd] in Hr.
    unfold single_cell in Hr. cbn [cellsFrom highlightsFrom].
    unfold cellWidth.
    replace ((32 <=? r) && (r <=? 126)) with true
      by (symmetry; apply andb_true_iff; split; apply Z.leb_le; lia).
    rewrite IH by exact Hrest.
    unfold len. cbn [length].
    replace (cell + 1 + Z.of_nat (length gs))
      with (cell + Z.of_nat (S (length gs))) by lia.
    reflexivity.
Qed.

Lemma glyphs_single (st : Style) (s : gostring) :
  map snd (glyphs [(st, s)]) = runes s.
Proof.
  rewrite glyphs_cons. cbn [glyphs flat_map]. rewrite app_nil_r, map_map.
  cbn [snd]. apply map_id.
Qed.

Section Cells.
Context `{Ext : External}.

Lemma In_words_printable (m : model) (word : gostring) :
  currentWord m = Some word -> Forall printable (words m) -> printable word.
Proof.
  unfold currentWord, index. intros Hw Hp.
  destruct ((0 <=? currentIdx m) && (currentIdx m <? len (words m)));
    [|discriminate].
  apply nth_error_In in Hw.
  exact (proj1 (Forall_forall _ _) Hp word Hw).
Qed.

(** On printable ASCII words every glyph of the word line is a
    codepoint of one cell, and the parts of the line have the widths
    the specification gives them. *)
Lemma wordLine_cells (m : model) (word : gostring) :
  currentWord m = Some word ->
  Forall printable (words m) ->
  leftPadding m <= 65535 ->
  exists pad cb ca,
    wordLine m
    = Some ((noStyle, pad) :: (contextStyle, cb)
              :: renderedWord word ++ [(contextStyle, ca)])
    /\ runes pad = repeat 32 (Z.to_nat (leftPadding m))
    /\ len (runes cb) = beforeSectionWidth word
    /\ len (runes ca) = afterSectionWidth word
    /\ Forall single_cell (runes cb)
    /\ Forall single_cell (runes ca).
Proof.
  intros Hw Hp Hmax.
  destruct (contextBefore_runes m word) as (cb & Hcb & Hrb & Hlb).
  assert (Hfol : Forall printable (skipn (Z.to_nat (currentIdx m + 1)) (words m)))
    by now apply Forall_skipn.
  destruct (right_context_ascii m word Hw) as (ca & Hca & Hra).
  { eapply Forall_impl; [|exact Hfol]. apply printable_ascii_only. }
  destruct (contextAfter_width m word) as (ca' & Hca' & Hla).
  rewrite Hca in Hca'. inversion Hca'; subst ca'; clear Hca'.
  exists (concat (repeat (lit " ") (Z.to_nat (leftPadding m)))), cb, ca.
  split.
  { unfold wordLine. rewrite Hw, Hcb, Hca.
    rewrite Repeat_Some by (pose proof (leftPadding_nonneg m); lia).
    reflexivity. }
  split; [apply runes_spaces|]. split; [exact Hlb|]. split; [exact Hla|].
  split.
  - rewrite Hrb. unfold leftContext_runes.
    assert (Hall : Forall single_cell
              (runes (concat (map (fun w => w ++ lit " ")
                                  (firstn (Z.to_nat (currentIdx m)) (words m))))))
      by now apply single_cell_bytes, printable_prior, Forall_firstn.
    destruct (_ >? _).
    + now apply Forall_skipn.
    + apply Forall_app. split; [apply single_cell_blanks | exact Hall].
  - rewrite Hra. unfold rightContext_spec.
    apply Forall_app. split; [|apply single_cell_blanks].
    apply Forall_firstn.
    now apply single_cell_bytes, printable_following.
Qed.

(** C1 (amended).  For every model whose words are printable ASCII,
    so that each codepoint takes one cell of the terminal, whose
    current index is in range and whose focus column is one of a
    terminal (0 to 65535): the word line is drawn as the padding of
    [leftPadding = max 0 (focusCol - H)] blanks, the left context of
    [H - before] codepoints, the rendered word and the right context;
    every glyph of the line takes one cell, so that its columns are
    the cells of the terminal; its one highlighted glyph
    stands at column [leftPadding + H], which is the focus column
    whenever the focus column is at least [H]; and for every word
    whose codepoint count is not 33 the right context holds
    [max 0 (H - after)] codepoints and the line is
    [leftPadding + 2H] columns wide, whatever the length of the
    word.  Here [before] is the ORP offset of the truncated word and
    [after] the rest of its codepoints. *)
Theorem word_line_alignment (m : model) (word : gostring) :
  currentWord m = Some word ->
  word <> [] ->
  Forall printable (words m) ->
  0 <= focusCol m <= maxColumns ->
  let before := calculateORP (truncateWord word) in
  let after := RuneCountInString (truncateWord word) - before in
  exists pad leftContext rightContext line,
    wordLine m = Some line
    /\ line = (noStyle, pad) :: (contextStyle, leftContext)
                :: renderedWord word ++ [(contextStyle, rightContext)]
    /\ leftPadding m = Z.max 0 (focusCol m - halfWidth)
    /\ runes pad = repeat 32 (Z.to_nat (leftPadding m))
    /\ len (runes leftContext) = halfWidth - before
    /\ (RuneCountInString word <> 33 ->
        len (runes rightContext) = Z.max 0 (halfWidth - after))
    /\ Forall (fun g => single_cell (snd g)) (glyphs line)
    /\ lineCells line = Some (highlightColumns line, displayWidth line)
    /\ highlightColumns line = [leftPadding m + halfWidth]
    /\ (halfWidth <= focusCol m -> highlightColumns line = [focusCol m])
    /\ (RuneCountInString word <> 33 ->
        displayWidth line = leftPadding m + 2 * halfWidth).
Proof.
  intros Hw Hne Hp Hf before after.
  destruct (leftPadding_eq m Hf) as (Hlp & Hmax).
  destruct (wordLine_cells m word Hw Hp Hmax)
    as (pad & cb & ca & Hl & Hpad & Hlb & Hla & Hcb & Hca).
  destruct (wordLine_layout m word Hw Hmax) as (line & Hl' & _ & Hh).
  destruct (word_line_width m word Hw Hmax) as (line' & Hl'' & Hwd).
  rewrite Hl' in Hl''. inversion Hl''; subst line'; clear Hl''.
  exists pad, cb, ca, line.
  assert (Hline : line = (noStyle, pad) :: (contextStyle, cb)
                           :: renderedWord word ++ [(contextStyle, ca)])
    by congruence.
  assert (Hhl : highlightColumns line = [leftPadding m + halfWidth]).
  { rewrite Hh.
    pose proof (truncateWord_nonempty word (nonempty_count word Hne)) as H1.
    pose proof (calculateORP_lt _ H1) as H2.
    destruct (calculateORP (truncateWord word)
              <? RuneCountInString (truncateWord word)) eqn:E;
      [reflexivity | unbool; lia]. }
  split; [exact Hl'|]. split; [exact Hline|]. split; [exact Hlp|].
  split; [exact Hpad|].
  split; [now rewrite Hlb, beforeSectionWidth_eq|].
  assert (Hcells : Forall (fun g => single_cell (snd g)) (glyphs line)).
  { rewrite Hline. apply Forall_forall. intros g Hg.
    assert (Hin : In (snd g) (map snd (glyphs ((noStyle, pad) :: (contextStyle, cb)
                           :: renderedWord word ++ [(contextStyle, ca)]))))
      by now apply in_map.
    change ((noStyle, pad) :: (contextStyle, cb)
              :: renderedWord word ++ [(contextStyle, ca)])
      with ([(noStyle, pad)] ++ [(contextStyle, cb)]
              ++ renderedWord word ++ [(contextStyle, ca)]) in Hin.
    rewrite !glyphs_app, !map_app, !glyphs_single in Hin.
    unfold renderedWord in Hin.
    rewrite (proj1 (wordParts_glyphs _ _ 0 (runes_valid (truncateWord word)))) in Hin.
    pose proof (In_words_printable m word Hw Hp) as Hpw.
    repeat (apply in_app_or in Hin; destruct Hin as [Hin | Hin]).
    - rewrite Hpad in Hin.
      exact (proj1 (Forall_forall _ _) (single_cell_blanks _) _ Hin).
    - exact (proj1 (Forall_forall _ _) Hcb _ Hin).
    - exact (proj1 (Forall_forall _ _) (single_cell_truncateWord word Hpw) _ Hin).
    - exact (proj1 (Forall_forall _ _) Hca _ Hin). }
  split.
  { intros H33. rewrite Hla. unfold afterSectionWidth, after, before.
    rewrite truncateWord_count.
    destruct (RuneCountInString word <=? 32) eqn:E; unbool.
    - now rewrite truncateWord_short.
    - pose proof (calculateORP_range (truncateWord word)) as Ho.
      assert (Ho4 : calculateORP (truncateWord word) = 4).
      { unfold calculateORP. rewrite truncateWord_long_count by lia.
        reflexivity. }
      unfold halfWidth. lia. }
  split; [exact Hcells|].
  split.
  { unfold lineCells, highlightColumns, displayWidth.
    now rewrite cellsFrom_single by exact Hcells. }
  split; [exact Hhl|]. split.
  - intros Hge. rewrite Hhl, Hlp. f_equal. lia.
  - intros H33. rewrite Hwd.
    destruct (RuneCountInString word =? 33) eqn:E; [unbool; lia | lia].
Qed.

End Cells.

(* ================================================================== *)
(** * The claims at sample inputs *)

Import Sample.

(** C1, as stated, fails on a terminal of 20 columns: the focus
    column is 10 and the highlighted glyph stands at column 30. *)
Lemma narrow_terminal_misaligned : ~ aligned (reader E0 fox 0 500 true 20).
Proof.
  intros (line & Hl & Hc).
  vm_compute in Hl. inversion Hl; subst line; clear Hl.
  vm_compute in Hc. discriminate.
Qed.

Lemma word_line_alignment_witness :
  (currentWord (reader E0 fox 1 500 true 80) = Some (lit "quick")
   /\ lit "quick" <> []
   /\ Forall printable (words (reader E0 fox 1 500 true 80))
   /\ 0 <= focusCol (reader E0 fox 1 500 true 80) <= maxColumns)
  /\ exists line,
       wordLine (reader E0 fox 1 500 true 80) = Some line
       /\ highlightColumns line = [40]
       /\ displayWidth line = 70
       /\ lineCells line = Some ([40], 70).
Proof.
  assert (H1 : currentWord (reader E0 fox 1 500 true 80) = Some (lit "quick"))
    by reflexivity.
  assert (H2 : lit "quick" <> []) by discriminate.
  assert (H3 : Forall printable (words (reader E0 fox 1 500 true 80)))
    by (repeat constructor; vm_compute; discriminate).
  assert (H4 : 0 <= focusCol (reader E0 fox 1 500 true 80) <= maxColumns)
    by (vm_compute; split; discriminate).
  split; [split; [exact H1 | split; [exact H2 | split; [exact H3 | exact H4]]]|].
  destruct (word_line_alignment (reader E0 fox 1 500 true 80) (lit "quick")
              H1 H2 H3 H4)
    as (pad & lc & rc & line & Hl & _ & _ & _ & _ & _ & _ & Hc & _ & Hf & Hw).
  exists line. split; [exact Hl|].
  assert (Hh : highlightColumns line = [40]) by (apply Hf; vm_compute; discriminate).
  assert (Hd : displayWidth line = 70) by (apply Hw; vm_compute; discriminate).
  split; [exact Hh|]. split; [exact Hd|].
  rewrite Hc, Hh, Hd. reflexivity.
Defined.

(** On wide characters the codepoints counted are not the cells of
    the terminal: on 80 columns, in front of the second of three
    words of three CJK ideographs, the line holds the usual 70
    codepoints with the highlighted one at index 40, the focus
    column, but on the terminal that glyph starts at cell 44 and the
    line takes 79 cells. *)
Example wide_text_leaves_the_marker :
  let m := reader E0 cjk 1 500 true 80 in
  exists line,
    wordLine m = Some line
    /\ focusCol m = 40
    /\ highlightColumns line = [40] /\ displayWidth line = 70
    /\ lineCells line = Some ([44], 79).
Proof. cbv zeta. eexists. repeat split; vm_compute; reflexivity. Qed.

Example width_at_33_codepoints :
  option_map displayWidth (wordLine (reader E0 [word33] 0 500 true 80)) = Some 71
  /\ option_map displayWidth (wordLine (reader E0 [word40] 0 500 true 80)) = Some 70
  /\ option_map displayWidth (wordLine (reader E0 fox 3 500 true 80)) = Some 70.
Proof. repeat split; vm_compute; reflexivity. Qed.

(** C2, as stated, fails when a document is on display and the file
    chosen holds white space only. *)
Lemma blank_file_keeps_document :
  ~ @load_enters_Idle_when_empty (ext (Some blank))
      (picking (ext (Some blank)) fox 2 500 true 80) (KeyMsg "enter").
Proof.
  intros H.
  destruct (H (lit "notes.txt") blank) as (m' & Hu & Hst & _).
  - repeat split.
  - reflexivity.
  - vm_compute in Hu. inversion Hu; subst m'; clear Hu.
    vm_compute in Hst. discriminate.
Qed.

Example blank_file_view :
  exists m' f w ,
    @Update (ext (Some blank)) (picking (ext (Some blank)) fox 2 500 true 80)
            (KeyMsg "enter") = Some (m', CmdNil)
    /\ words m' = fox /\ currentIdx m' = 2
    /\ View m' = Some (Reader f w 1 120000000).
Proof. do 3 eexists. repeat split. Qed.

Lemma load_document_witness :
  @selects (ext (Some (lit "so it goes")))
     (picking (ext (Some (lit "so it goes"))) fox 2 500 false 80)
     (KeyMsg "enter") (lit "notes.txt") (lit "so it goes")
  /\ exists m',
       @Update (ext (Some (lit "so it goes")))
          (picking (ext (Some (lit "so it goes"))) fox 2 500 false 80)
          (KeyMsg "enter") = Some (m', CmdNil)
       /\ words m' = [lit "so"; lit "it"; lit "goes"]
       /\ currentIdx m' = 0 /\ paused m' = true /\ state m' = Paused.
Proof.
  assert (Hs : @selects (ext (Some (lit "so it goes")))
                 (picking (ext (Some (lit "so it goes"))) fox 2 500 false 80)
                 (KeyMsg "enter") (lit "notes.txt") (lit "so it goes"))
    by (repeat split).
  split; [exact Hs|].
  destruct (@load_document (ext (Some (lit "so it goes"))) _ _ _ _ Hs)
    as (m' & Hu & _ & Hl & _).
  exists m'. split; [exact Hu|].
  apply Hl. vm_compute. discriminate.
Defined.

(** A blank file chosen over a loaded document: the screen is the
    reader's, as before the selection, and shows no message. *)
Example blank_file_over_document :
  let E := ext (Some blank) in
  forall m',
    @Update E (picking E fox 2 500 true 80) (KeyMsg "enter") = Some (m', CmdNil) ->
    View m' = View (reader E fox 2 500 true 80)
    /\ fileError m' = lit "No words found in file"
    /\ forall text, View m' <> Some (Message text).
Proof.
  intros E m' Hu. vm_compute in Hu. inversion Hu; subst m'; clear Hu.
  split; [reflexivity|]. split; [reflexivity|].
  intros text. vm_compute. discriminate.
Qed.

(** The scenario of C3: at the last of four words a tick pauses and
    schedules nothing. *)
Lemma tick_while_playing_witness :
  (fox <> [] /\ 50 <= 500 <= 1000)
  /\ (exists m',
        Update (reader E0 fox 2 500 false 80) tickMsg = Some (m', Tick 120000000)
        /\ currentIdx m' = 3 /\ paused m' = false)
  /\ (exists m',
        Update (reader E0 fox 3 500 false 80) tickMsg = Some (m', CmdNil)
        /\ currentIdx m' = 3 /\ paused m' = true).
Proof.
  assert (Hw : fox <> []) by discriminate.
  assert (Hr : 50 <= 500 <= 1000) by lia.
  split; [split; assumption|]. split.
  - destruct (tick_while_playing (reader E0 fox 2 500 false 80) Hw eq_refl eq_refl Hr)
      as (Hadv & _).
    destruct Hadv as (m' & Hu & Hi & Hp & _); [vm_compute; reflexivity|].
    exists m'. split; [exact Hu|]. split; [exact Hi | exact Hp].
  - destruct (tick_while_playing (reader E0 fox 3 500 false 80) Hw eq_refl eq_refl Hr)
      as (_ & Hlast).
    destruct Hlast as (m' & Hu & Hi & Hp & _); [reflexivity|].
    exists m'. split; [exact Hu|]. split; [exact Hi | exact Hp].
Defined.

(** The scenario of C4: ten words back from index 3 is index 0. *)
Lemma index_commands_clamp_witness :
  exists m' cmd,
    Update (reader E0 fox 3 500 true 80) (KeyMsg "[") = Some (m', cmd)
    /\ words m' = fox
    /\ currentIdx m' = 0
    /\ 0 <= currentIdx m' < len (words m').
Proof.
  apply (index_commands_clamp (reader E0 fox 3 500 true 80) (jump false) (KeyMsg "[")).
  - split; reflexivity.
  - discriminate.
  - vm_compute. discriminate.
  - vm_compute. split; [discriminate | reflexivity].
  - discriminate.
  - exists "["%string. split; [left; reflexivity | reflexivity].
Defined.


(** The scenario of C6: a word of 40 codepoints is displayed in 34,
    and its ORP offset is that of the 34. *)
Lemma truncation_then_highlight_witness :
  (32 < RuneCountInString word40 /\ word40 <> []
   /\ RuneCountInString (lit "extraordinarily") <= 32)
  /\ RuneCountInString word40 = 40
  /\ RuneCountInString (truncateWord word40) = 34
  /\ highlightColumns (renderedWord word40) = [4]
  /\ truncateWord (lit "extraordinarily") = lit "extraordinarily".
Proof.
  assert (H1 : 32 < RuneCountInString word40) by (vm_compute; reflexivity).
  assert (H2 : word40 <> []) by discriminate.
  assert (H3 : RuneCountInString (lit "extraordinarily") <= 32)
    by (vm_compute; discriminate).
  split; [repeat split; assumption|].
  split; [reflexivity|].
  destruct (truncation_then_highlight word40) as (Hl & _ & _ & _ & Hh).
  destruct (truncation_then_highlight (lit "extraordinarily")) as (_ & Hs & _).
  split; [apply (Hl H1)|]. split; [exact (Hh H2) | exact (Hs H3)].
Defined.

(** C7, as stated for all strings, fails at the empty string: its
    offset 0 is not below [min 0 33]. *)
Lemma orp_not_below_length_of_empty :
  ~ (calculateORP (truncateWord []) < Z.min (RuneCountInString []) 33).
Proof. vm_compute. discriminate. Qed.

(** The scenario of C7: fifteen codepoints, offset 4. *)
Lemma orp_offset_table_witness :
  (13 < RuneCountInString (lit "extraordinarily")
   /\ RuneCountInString (lit "extraordinarily") <= RuneCountInString word40
   /\ 1 <= RuneCountInString (lit "extraordinarily"))
  /\ RuneCountInString (lit "extraordinarily") = 15
  /\ calculateORP (lit "extraordinarily") = 4
  /\ calculateORP (lit "extraordinarily") <= calculateORP word40
  /\ calculateORP (truncateWord (lit "extraordinarily"))
     < Z.min (RuneCountInString (lit "extraordinarily")) 33.
Proof.
  assert (H1 : 13 < RuneCountInString (lit "extraordinarily"))
    by (vm_compute; reflexivity).
  assert (H2 : RuneCountInString (lit "extraordinarily") <= RuneCountInString word40)
    by (vm_compute; discriminate).
  assert (H3 : 1 <= RuneCountInString (lit "extraordinarily"))
    by (vm_compute; discriminate).
  split; [repeat split; assumption|].
  split; [reflexivity|].
  destruct (orp_offset_table (lit "extraordinarily") word40)
    as (_ & _ & _ & _ & H13 & Hmono & Hlt).
  split; [exact (H13 H1)|]. split; [exact (Hmono H2) | exact (Hlt H3)].
Defined.

Lemma speed_change_in_range_witness :
  (reading (reader E0 fox 0 1000 true 80) /\ 50 <= 1000 <= 1000)
  /\ (exists m', Update (reader E0 fox 0 1000 true 80) (KeyMsg "up")
                 = Some (m', CmdNil) /\ wpm m' = 1000)
  /\ (exists m', Update (reader E0 fox 0 1000 true 80) (KeyMsg "down")
                 = Some (m', CmdNil) /\ wpm m' = 975).
Proof.
  assert (Hr : reading (reader E0 fox 0 1000 true 80)) by (split; reflexivity).
  assert (Hw : 50 <= 1000 <= 1000) by lia.
  split; [split; assumption|].
  destruct (speed_change_in_range (reader E0 fox 0 1000 true 80) Hr Hw)
    as ((_ & Hslow) & Hmax & _).
  split.
  - apply (Hmax eq_refl). left; reflexivity.
  - apply (Hslow "down"%string). left; reflexivity.
Defined.

(** C9, as stated, fails at 700 words per minute: the interval is
    85714285 ns, neither 85 ms nor exactly 60000/700 ms. *)
Lemma interval_at_700_is_not_whole_milliseconds :
  tickCmd 700 = Some (Tick 85714285)
  /\ 85714285 <> 60000 / 700 * Millisecond
  /\ 85714285 * 700 <> 60000 * Millisecond.
Proof. repeat split; vm_compute; discriminate. Qed.

Lemma tick_interval_witness :
  50 <= 500 <= 1000
  /\ tickCmd 500 = Some (Tick 120000000)
  /\ 120000000 / Millisecond = 120.
Proof.
  assert (H : 50 <= 500 <= 1000) by lia.
  split; [exact H|].
  destruct (tick_interval 500 H) as (Hc & Hms & _).
  split; [exact Hc | exact Hms].
Defined.

Lemma idle_index_witness :
  (reading (reader E0 [] 0 500 true 80)
   /\ words (reader E0 [] 0 500 true 80) = []
   /\ currentIdx (reader E0 [] 0 500 true 80) = 0)
  /\ (exists m', Update (reader E0 [] 0 500 true 80) (KeyMsg "]") = Some (m', CmdNil)
                 /\ words m' = [] /\ currentIdx m' = -1)
  /\ (exists m', Update (reader E0 [] 0 500 true 80) (KeyMsg "right") = Some (m', CmdNil)
                 /\ words m' = [] /\ currentIdx m' = 0)
  /\ View (set_currentIdx (-1) (reader E0 [] 0 500 true 80))
     = Some (Message (lit "No words to display. Press 'o' to open a text file or provide a URL as an argument.")).
Proof.
  assert (Hr : reading (reader E0 [] 0 500 true 80)) by (split; reflexivity).
  split; [repeat split|].
  destruct (idle_index (reader E0 [] 0 500 true 80) Hr eq_refl eq_refl)
    as (Hj & Hs & Hv & _).
  split; [|split].
  - destruct (Hj (KeyMsg "]")) as (m' & Hu & Hw & _ & Hi).
    + exists "]"%string. split; [left; reflexivity | reflexivity].
    + exists m'. repeat split; assumption.
  - apply (Hs (step true)); [left; reflexivity|].
    exists "right"%string. split; [left; reflexivity | reflexivity].
  - destruct (Hv (set_currentIdx (-1) (reader E0 [] 0 500 true 80)) eq_refl)
      as (s & Hview & _ & Hmsg).
    rewrite Hview. f_equal. apply Hmsg; try reflexivity; discriminate.
Defined.

(* ================================================================== *)
(** * The further properties at sample inputs *)

Lemma isBinaryFile_iff_witness :
  isBinaryFile [zero; "a"%char] = true.
Proof.
  apply (proj2 (isBinaryFile_iff [zero; "a"%char])).
  exists 0, zero. repeat split; reflexivity || discriminate.
Defined.

Lemma rendered_word_glyphs_witness :
  nth_error (glyphs (renderedWord (lit "quick"))) 1 = Some (highlightStyle, 117)
  /\ highlightStyle
     = if Z.of_nat 1 =? calculateORP (truncateWord (lit "quick"))
       then highlightStyle else normalStyle.
Proof.
  assert (H : nth_error (glyphs (renderedWord (lit "quick"))) 1
              = Some (highlightStyle, 117)) by reflexivity.
  split; [exact H|].
  exact (proj2 (rendered_word_glyphs (lit "quick")) 1%nat highlightStyle 117 H).
Defined.

Lemma view_remaining_witness :
  exists fl wl,
    View (reader E0 fox 1 500 true 80) = Some (Reader fl wl 2 240000000)
    /\ 2 = len fox - 1 - 1
    /\ 240000000 = 2 * 60000000000 / 500.
Proof.
  assert (Hv : exists fl wl, View (reader E0 fox 1 500 true 80)
                             = Some (Reader fl wl 2 240000000))
    by (do 2 eexists; reflexivity).
  destruct Hv as (fl & wl & Hv). exists fl, wl. split; [exact Hv|].
  destruct (view_remaining (reader E0 fox 1 500 true 80) fl wl 2 240000000 Hv)
    as (Hr & _ & He & _); [reflexivity|].
  split; [exact Hr|]. apply He. discriminate.
Defined.

Lemma session_invariant_witness :
  run (initialModel fox 1000) [WindowSizeMsg 80 24; KeyMsg " "; tickMsg]
  = Some (reader E0 fox 1 1000 false 80)
  /\ Inv (reader E0 fox 1 1000 false 80)
  /\ (exists s, View (reader E0 fox 1 1000 false 80) = Some s)
  /\ exists m' c,
       Update (reader E0 fox 1 1000 false 80) (KeyMsg "o") = Some (m', c) /\ Inv m'.
Proof.
  assert (Hr : run (initialModel fox 1000) [WindowSizeMsg 80 24; KeyMsg " "; tickMsg]
               = Some (reader E0 fox 1 1000 false 80)) by reflexivity.
  split; [exact Hr|].
  destruct (@session_invariant E0 (Page (lit "The quick brown fox")) 2000
              (initialModel fox 1000) (reader E0 fox 1 1000 false 80)
              [WindowSizeMsg 80 24; KeyMsg " "; tickMsg])
    as (HI & Hrest).
  - reflexivity.
  - unfold fits. vm_compute. discriminate.
  - intros path content H. discriminate.
  - repeat constructor; vm_compute; discriminate.
  - exact Hr.
  - split; [exact HI|].
    destruct (Hrest eq_refl) as (Hv & Hu).
    split; [exact Hv|]. apply Hu; [exact I | discriminate].
Defined.

Lemma rate_stays_in_range_witness :
  exists m',
    run (@initialModel E0 fox (clampFlag 7)) [KeyMsg "down"; KeyMsg "up"] = Some m'
    /\ 50 <= wpm m' <= 1000.
Proof.
  eexists. split; [reflexivity|].
  apply (@rate_stays_in_range E0 fox 7 [KeyMsg "down"; KeyMsg "up"]).
  reflexivity.
Defined.

Lemma play_to_the_end_witness :
  run (reader E0 fox 1 500 false 80) [tickMsg; tickMsg]
  = Some (set_currentIdx 3 (reader E0 fox 1 500 false 80))
  /\ run (reader E0 fox 1 500 false 80) [tickMsg; tickMsg; tickMsg]
     = Some (set_paused true (set_currentIdx 3 (reader E0 fox 1 500 false 80))).
Proof.
  apply (play_to_the_end (reader E0 fox 1 500 false 80) 2);
    reflexivity || discriminate.
Defined.


Lemma play_pause_toggles_witness :
  exists c,
    tickCmd 500 = Some c
    /\ Update (reader E0 fox 1 500 true 80) (KeyMsg " ")
       = Some (set_paused false (reader E0 fox 1 500 true 80), c)
    /\ run (reader E0 fox 1 500 true 80) [KeyMsg " "; KeyMsg " "]
       = Some (reader E0 fox 1 500 true 80).
Proof.
  apply (play_pause_toggles (reader E0 fox 1 500 true 80) " ").
  - split; reflexivity.
  - left; reflexivity.
  - discriminate.
Defined.

Lemma step_round_trip_witness :
  run (reader E0 fox 1 500 true 80) [KeyMsg "l"; KeyMsg "h"]
  = Some (reader E0 fox 1 500 true 80)
  /\ Update (set_currentIdx 0 (reader E0 fox 1 500 true 80)) (KeyMsg "h")
     = Some (set_currentIdx 0 (reader E0 fox 1 500 true 80), CmdNil)
  /\ Update (set_currentIdx 3 (reader E0 fox 1 500 true 80)) (KeyMsg "l")
     = Some (set_currentIdx 3 (reader E0 fox 1 500 true 80), CmdNil).
Proof.
  destruct (step_round_trip (reader E0 fox 1 500 true 80) "l" "h")
    as (H1 & _ & H3 & H4).
  - split; reflexivity.
  - right; left; reflexivity.
  - right; left; reflexivity.
  - split; [discriminate | reflexivity].
  - split; [exact H1 | split; [exact H3 | exact H4]].
Defined.

Lemma jump_round_trip_witness :
  run (reader E0 chorus 1 500 true 80) [KeyMsg "]"; KeyMsg "["]
  = Some (reader E0 chorus 1 500 true 80)
  /\ Update (reader E0 chorus 1 500 true 80) (KeyMsg "[")
     = Some (set_currentIdx 0 (reader E0 chorus 1 500 true 80), CmdNil)
  /\ Update (reader E0 fox 1 500 true 80) (KeyMsg "]")
     = Some (set_currentIdx 3 (reader E0 fox 1 500 true 80), CmdNil).
Proof.
  destruct (jump_round_trip (reader E0 chorus 1 500 true 80) "]" "[")
    as (H1 & H2 & _).
  - split; reflexivity.
  - left; reflexivity.
  - left; reflexivity.
  - unfold fits. vm_compute. discriminate.
  - split; [discriminate | reflexivity].
  - destruct (jump_round_trip (reader E0 fox 1 500 true 80) "]" "[")
      as (_ & _ & H3).
    + split; reflexivity.
    + left; reflexivity.
    + left; reflexivity.
    + unfold fits. vm_compute. discriminate.
    + split; [discriminate | reflexivity].
    + split; [apply H1; reflexivity|].
      split; [apply H2; reflexivity | apply H3; vm_compute; discriminate].
Defined.

Lemma speed_round_trip_witness :
  run (reader E0 fox 1 500 true 80) [KeyMsg "up"; KeyMsg "down"]
  = Some (reader E0 fox 1 500 true 80)
  /\ run (reader E0 fox 1 1000 true 80) [KeyMsg "up"; KeyMsg "down"]
     = Some (set_wpm 975 (reader E0 fox 1 1000 true 80)).
Proof.
  split.
  - apply (speed_round_trip (reader E0 fox 1 500 true 80) "up" "down").
    + split; reflexivity.
    + left; reflexivity.
    + left; reflexivity.
    + cbn. lia.
    + vm_compute. discriminate.
  - apply (speed_round_trip (reader E0 fox 1 1000 true 80) "up" "down").
    + split; reflexivity.
    + left; reflexivity.
    + left; reflexivity.
    + cbn. lia.
    + reflexivity.
Defined.

Lemma picker_keeps_playback_witness :
  Update (picking E0 fox 1 500 true 80) (KeyMsg "q")
  = Some (set_showPicker false (picking E0 fox 1 500 true 80), CmdNil)
  /\ exists m',
       Update (picking E0 fox 1 500 true 80) (KeyMsg "r") = Some (m', CmdNil)
       /\ same_playback (picking E0 fox 1 500 true 80) m'
       /\ showPicker m' = true.
Proof.
  destruct (picker_keeps_playback (picking E0 fox 1 500 true 80) (KeyMsg "q") eq_refl)
    as (Hq & _).
  destruct (picker_keeps_playback (picking E0 fox 1 500 true 80) (KeyMsg "r") eq_refl)
    as (_ & Hr).
  split; [apply Hq; reflexivity|].
  destruct (Hr eq_refl eq_refl) as (m' & Hu & Hs & Hp & _).
  exists m'. split; [exact Hu | split; assumption].
Defined.

Lemma load_failure_keeps_document_witness :
  exists m',
    Update (picking E0 [] 0 500 true 80) (KeyMsg "enter") = Some (m', CmdNil)
    /\ same_playback (picking E0 [] 0 500 true 80) m'
    /\ fileError m' = lit "Error reading file"
    /\ View m' = Some (Message
         (lit "Error reading file. Press 'o' to open a text file or provide a URL as an argument.")).
Proof.
  destruct (load_failure_keeps_document (picking E0 [] 0 500 true 80)
              (KeyMsg "enter") (lit "notes.txt") eq_refl eq_refl eq_refl
              (or_introl eq_refl))
    as (m' & Hu & Hs & Hsp & Hfe & Hv).
  exists m'. split; [exact Hu|]. split; [exact Hs|]. split; [exact Hfe|].
  assert (E : Update (picking E0 [] 0 500 true 80) (KeyMsg "enter")
              = Some (set_showPicker false
                        (set_fileError (lit "Error reading file")
                           (picking E0 [] 0 500 true 80)), CmdNil))
    by reflexivity.
  rewrite E in Hu. inversion Hu; subst m'.
  apply Hv; reflexivity || discriminate.
Defined.


Lemma quit_keys_witness :
  Update (reader E0 fox 2 500 false 80) (KeyMsg "ctrl+c")
  = Some (set_quit true (reader E0 fox 2 500 false 80), Quit)
  /\ View (set_quit true (reader E0 fox 2 500 false 80)) = Some (Message [])
  /\ Update (picking E0 fox 2 500 true 80) (KeyMsg "q")
     = Some (set_showPicker false (picking E0 fox 2 500 true 80), CmdNil).
Proof.
  destruct (quit_keys (reader E0 fox 2 500 false 80) "ctrl+c" eq_refl)
    as (H1 & _); [right; right; left; reflexivity|].
  destruct (quit_keys (picking E0 fox 2 500 true 80) "q" eq_refl)
    as (_ & H2); [left; reflexivity|].
  destruct (H1 eq_refl) as (Ha & Hb).
  destruct (H2 eq_refl ltac:(discriminate)) as (Hc & _).
  split; [exact Ha | split; [exact Hb | exact Hc]].
Defined.

Lemma resize_sets_geometry_witness :
  exists m',
    Update (reader E0 fox 2 500 false 80) (WindowSizeMsg 121 40) = Some (m', CmdNil)
    /\ width m' = 121 /\ height m' = 40 /\ focusCol m' = 60
    /\ same_playback (reader E0 fox 2 500 false 80) m'.
Proof.
  destruct (resize_sets_geometry (reader E0 fox 2 500 false 80) 121 40 eq_refl)
    as (m' & Hu & Hw & Hh & Hf & Hs & _).
  exists m'. repeat split; try assumption; apply Hs.
Defined.

Lemma reader_keeps_document_witness :
  words (set_currentIdx 0 (reader E0 fox 2 500 false 80)) = fox
  /\ selectedFile (set_currentIdx 0 (reader E0 fox 2 500 false 80)) = []
  /\ fileError (set_currentIdx 0 (reader E0 fox 2 500 false 80)) = [].
Proof.
  apply (reader_keeps_document (reader E0 fox 2 500 false 80)
           (set_currentIdx 0 (reader E0 fox 2 500 false 80)) (KeyMsg "[") CmdNil);
    reflexivity.
Defined.

Lemma main_start_witness :
  exists m0,
    @mainModel E0 (Bytes (lit "The quick brown fox")) 1200 = Some m0
    /\ paused m0 = true /\ currentIdx m0 = 0 /\ wpm m0 = 1000
    /\ words m0 = fox.
Proof.
  eexists. split; [reflexivity|].
  destruct (@main_start E0 (Bytes (lit "The quick brown fox")) 1200 _ eq_refl)
    as (Hp & Hi & _ & Hw & _ & _ & Hb).
  split; [exact Hp|]. split; [exact Hi|]. split; [exact Hw|].
  destruct (Hb _ eq_refl) as (_ & Hwords). exact Hwords.
Defined.

Lemma focus_marker_column_witness :
  exists line,
    focusLine (reader E0 fox 2 500 false 80) = Some line
    /\ displayWidth line = 41
    /\ focusLine (set_focusCol (-1) (reader E0 fox 2 500 false 80)) = None.
Proof.
  destruct (focus_marker_column (reader E0 fox 2 500 false 80)) as (H1 & _).
  destruct (focus_marker_column (set_focusCol (-1) (reader E0 fox 2 500 false 80)))
    as (_ & H2).
  destruct H1 as (line & Hl & _ & Hw); [vm_compute; split; discriminate|].
  exists line. split; [exact Hl|]. split; [exact Hw|].
  apply H2. left. reflexivity.
Defined.

Lemma right_context_on_ascii_witness :
  exists ca,
    contextAfter (reader E0 fox 0 500 true 80) (lit "The") = Some ca
    /\ len (runes ca) = 28.
Proof.
  destruct (right_context_on_ascii (reader E0 fox 0 500 true 80) (lit "The"))
    as (ca & Hca & _ & Hlen).
  - reflexivity.
  - repeat constructor; vm_compute; reflexivity.
  - exists ca. split; [exact Hca | exact Hlen].
Defined.

